(** * geokit: the raster mosaic compositor and the geometry flattener

    A shallow embedding of

    - [flatten], [transform] and [convertMask] of
      [geokit/_core/geomutil.py],
    - [combineSimilarRasters] of
      [geokit/_algorithms/combineSimilarRasters.py], and
    - [SRSCOMMON] and [loadSRS] of [geokit/core/srs.py],

    with the statements of the specification proved (or refuted) on the
    embedding. *)

From Stdlib Require Import ZArith QArith Qround Qabs Lia Lqa.
From stdpp Require Import base decidable option list gmap strings sorting.
From Equations Require Import Equations.

(* ===================================================================== *)
(** * Part I: definitions                                                  *)
(* ===================================================================== *)

(** ** [geomutil.flatten] *)

Section flatten_def.
Context {G : Type} (Union : G → G → G).

(** One round of the [for gi in range(0, len(geoms), 2)] loop:
    [geoms[gi].Union(geoms[gi+1])] for each adjacent pair, and the
    [except IndexError] branch keeps an unpaired last geometry as it is. *)
Fixpoint union_round (geoms : list G) : list G :=
  match geoms with
  | g0 :: g1 :: rest => Union g0 g1 :: union_round rest
  | [g0] => [g0]
  | [] => []
  end.

(** [while len(geoms) > 1: ... geoms = newGeoms]. *)
Equations? flatten_loop (geoms : list G) : list G by wf (length geoms) lt :=
  flatten_loop geoms with decide (1 < length geoms) => {
    | left _ := flatten_loop (union_round geoms);
    | right _ := geoms }.
Proof.
  clear flatten_loop.
  assert (Hle : ∀ n (l : list G), length l ≤ n →
            length (union_round l) ≤ length l ∧
            (1 < length l → length (union_round l) < length l)).
  { induction n as [|n IH]; intros [|a [|b r]] Hn; simpl in *; try lia.
    destruct (IH r) as [H1 H2]; lia. }
  apply (Hle (length geoms) geoms); [lia | assumption].
Qed.

(** [flatten]: [None] for an empty list, otherwise the one geometry left
    when the loop ends. *)
Definition flatten (geoms : list G) : option G :=
  match geoms with
  | [] => None
  | _ => head (flatten_loop geoms)
  end.

(** The naive reduction the specification compares with: a left fold of
    [Union] over the list, starting from its first geometry. *)
Definition union_fold (geoms : list G) : option G :=
  match geoms with
  | [] => None
  | g0 :: rest => Some (fold_left Union rest g0)
  end.

End flatten_def.

(** ** The raster data model *)

(** Pixel datatypes ([info.dtype]); only their identity matters here. *)
Inductive DType :=
  GDT_Byte | GDT_UInt16 | GDT_Int16 | GDT_UInt32 | GDT_Int32
| GDT_Float32 | GDT_Float64.

#[global] Instance DType_eq_dec : EqDecision DType.
Proof. solve_decision. Defined.

(** A spatial reference is identified by a code (an EPSG number, see
    [loadSRS]); [IsSame] compares two of them. *)
Definition SRS : Type := Z.
Definition IsSame (a b : SRS) : bool := bool_decide (a = b).

(** A pixel value: a number, or the NaN a band of a float datatype can
    hold. Numbers are integers. *)
Inductive Pixel :=
| Num (v : Z)
| NaN.

#[global] Instance Pixel_eq_dec : EqDecision Pixel.
Proof. solve_decision. Defined.

(** [d != nd] on two pixel values, as numpy and Python compare numbers:
    NaN differs from every value, itself included. *)
Definition pixel_ne (d nd : Pixel) : bool :=
  match d, nd with
  | Num a, Num b => negb (a =? b)%Z
  | _, _ => true
  end.

(** A pixel matrix, row-major: a list of rows. Coordinates and
    resolutions are exact rationals. *)
Abbreviation Matrix := (list (list Pixel)).

(** The matrix of the numbers [m]. *)
Definition px (m : list (list Z)) : Matrix := map (map Num) m.

(** The metadata snapshot returned by [rasterInfo]. *)
Record RasterInfo := mkInfo {
  srs : SRS;
  dx : Q;
  dy : Q;
  xMin : Q;
  yMin : Q;
  xMax : Q;
  yMax : Q;
  dtype : DType;
  noData : option Pixel;
  yAtTop : bool }.

Definition bounds (i : RasterInfo) : Q * Q * Q * Q :=
  (xMin i, yMin i, xMax i, yMax i).

(** A raster: its metadata and its single band, rows as they are stored. *)
Record Raster := mkRaster { info : RasterInfo; band : Matrix }.

(** An element of [datasets]: a path, or an already opened dataset (taken
    as a raster held in memory). *)
Inductive Dataset :=
| DsPath (path : string)
| DsHandle (r : Raster).

(** The [datasets] argument: a string (a glob pattern), one
    [gdal.Dataset], or an iterable. *)
Inductive DatasetsArg :=
| ArgStr (pattern : string)
| ArgDataset (r : Raster)
| ArgIter (ds : list Dataset).

(** The result of [Extent.findWithin]. *)
Record SubWindow := mkWin { xStart : Z; yStart : Z; xWin : Z; yWin : Z }.

(** ** Storage, events and the error monad *)

(** What the operation does to storage, in the order it does it. *)
Inductive Event :=
| EvGlob (pattern : string)
| EvInfo (path : string)
| EvFetch (path : string)
| EvIsFile (path : string)
| EvCreate (path : string) (i : RasterInfo) (fillValue : option Pixel)
| EvOpen (path : string)
| EvRead (path : string) (w : SubWindow)
| EvWrite (path : string) (xoff yoff : Z) (m : Matrix)
| EvFlush (path : string)
| EvStats (path : string).

(** Durable storage (the rasters by path) and the log of accesses. *)
Record State := mkState {
  files : gmap string Raster;
  trace : list Event }.

Inductive Exn :=
| GeoKitError (msg : string)
| MisalignedTile
| BackendIOError
| IndexError.

Inductive Res (A : Type) :=
| Ok (a : A)
| Raise (e : Exn).
Arguments Ok {A} a.
Arguments Raise {A} e.

(** A computation may change the state and then return or raise; what it
    changed before raising stays changed. *)
Definition M (A : Type) : Type := State → Res A * State.

Definition ret {A} (a : A) : M A := λ st, (Ok a, st).
Definition raise {A} (e : Exn) : M A := λ st, (Raise e, st).
Definition bind {A B} (m : M A) (k : A → M B) : M B :=
  λ st, match m st with
        | (Ok a, st') => k a st'
        | (Raise e, st') => (Raise e, st')
        end.
Definition lift {A} (r : Res A) : M A := λ st, (r, st).
Definition emit (e : Event) : M unit :=
  λ st, (Ok tt, mkState (files st) (trace st ++ [e])).
Definition get_file (p : string) : M (option Raster) :=
  λ st, (Ok (files st !! p), st).
Definition put_file (p : string) (r : Raster) : M unit :=
  λ st, (Ok tt, mkState (<[p := r]> (files st)) (trace st)).

Declare Scope M_scope.
Delimit Scope M_scope with M.
Notation "'do' x <- m ; k" := (bind m (λ x, k))
  (at level 10, x name, m at level 100, k at level 200) : M_scope.
Notation "m ;; k" := (bind m (λ _, k))
  (at level 100, k at level 200, right associativity) : M_scope.
Open Scope M_scope.

(** [[f(x) for x in l]], left to right. *)
Fixpoint mapM {A B} (f : A → M B) (l : list A) : M (list B) :=
  match l with
  | [] => ret []
  | x :: l' => do y <- f x; do ys <- mapM f l'; ret (y :: ys)
  end.

(** [for x in l: f(x)]. *)
Fixpoint forM_ {A} (f : A → M unit) (l : list A) : M unit :=
  match l with
  | [] => ret tt
  | x :: l' => f x;; forM_ f l'
  end.

(** ** Matrices and windows

    [window_fits], [read_window], [write_fits] and [write_window] give
    the windowed read and write of a band (RasterBand.readWindow and
    RasterBand.writeWindow of section 6 of the spec) their meaning on
    matrices. *)

(** [m[r][c]]. *)
Definition mget (m : Matrix) (r c : nat) : option Pixel :=
  m !! r ≫= (.!! c).

(** The window [(xoff, yoff, xsize, ysize)] lies inside the band. *)
Definition window_fits (b : Matrix) (xoff yoff xsize ysize : Z) : bool :=
  (0 <=? xoff)%Z && (0 <=? yoff)%Z && (0 <? xsize)%Z && (0 <? ysize)%Z
  && (yoff + ysize <=? Z.of_nat (length b))%Z
  && forallb (λ row, (xoff + xsize <=? Z.of_nat (length row))%Z) b.

Definition read_window (b : Matrix) (xoff yoff xsize ysize : Z) : Matrix :=
  (λ row, take (Z.to_nat xsize) (drop (Z.to_nat xoff) row))
    <$> take (Z.to_nat ysize) (drop (Z.to_nat yoff) b).

(** The matrix [m], put with its top left corner at [(xoff, yoff)], lies
    inside the band. *)
Definition write_fits (b : Matrix) (xoff yoff : Z) (m : Matrix) : bool :=
  (0 <=? xoff)%Z && (0 <=? yoff)%Z
  && (yoff + Z.of_nat (length m) <=? Z.of_nat (length b))%Z
  && forallb (λ mrow,
       forallb (λ row, (xoff + Z.of_nat (length mrow)
                        <=? Z.of_nat (length row))%Z) b) m.

(** The band after [m] was written at [(xoff, yoff)]: the cells under [m]
    take its values, the others keep theirs. *)
Definition write_window (b : Matrix) (xoff yoff : nat) (m : Matrix) : Matrix :=
  imap (λ r row,
    imap (λ c v,
      if (yoff <=? r)%nat && (xoff <=? c)%nat
      then default v (mget m (r - yoff) (c - xoff))
      else v) row) b.

(** [sel = dMatrix != noData; mMatrix[sel] = dMatrix[sel]]: the cells
    whose tile value compares unequal to [nd] take that value; numpy raises
    an [IndexError] when the mask and the array differ in shape. *)
Definition mask_assign (mMatrix dMatrix : Matrix) (nd : Pixel) : Res Matrix :=
  if decide (length <$> mMatrix = length <$> dMatrix)
  then Ok (zip_with (zip_with (λ m d, if pixel_ne d nd then d else m))
                    mMatrix dMatrix)
  else Raise IndexError.

(** Python's [round] on a number: to the nearest integer, a tie to the
    even one. *)
Definition round (q : Q) : Z :=
  let f := Qfloor q in
  match (q - inject_Z f ?= 1 # 2)%Q with
  | Lt => f
  | Gt => (f + 1)%Z
  | Eq => if Z.even f then f else (f + 1)%Z
  end.

(** Python's [min] and [max] of a list: the first smallest, the first
    largest; a [ValueError] (here [IndexError]) on an empty list. *)
Definition min_from (x : Q) (r : list Q) : Q :=
  fold_left (λ a b, if Qle_bool a b then a else b) r x.
Definition max_from (x : Q) (r : list Q) : Q :=
  fold_left (λ a b, if Qle_bool b a then a else b) r x.
Definition py_min (l : list Q) : Res Q :=
  match l with
  | [] => Raise IndexError
  | x :: r => Ok (min_from x r)
  end.
Definition py_max (l : list Q) : Res Q :=
  match l with
  | [] => Raise IndexError
  | x :: r => Ok (max_from x r)
  end.

Record Extent := mkExtent { ext_bounds : Q * Q * Q * Q; ext_srs : SRS }.

(** A custom [combiningFunc(mMatrix, mInfo, dMatrix, dInfo)]. *)
Definition CombiningFunc : Type :=
  Matrix → RasterInfo → Matrix → RasterInfo → Matrix.

(** ** The collaborators of the compositor

    [rasterInfo], [fetchMatrix], [createRaster], [Extent.findWithin] and
    the GDAL band operations are imported by [combineSimilarRasters] from
    modules that are not part of the sources at hand. *)

Section compositor.
(** [glob]: the paths a pattern matches, in the order the file system
    lists them. [tol]: the tolerance of [findWithin]. *)
Context (glob : string → list string) (tol : Q).

(** Modelled from the spec: [rasterInfo], the RasterInfoProvider of
    section 6 ("returns SRS identifier, dx, dy, bounds, datatype, nodata,
    orientation flag; must be side-effect-free"). A path that is no raster
    is a failure of the storage layer. *)
Definition rasterInfo (d : Dataset) : M RasterInfo :=
  match d with
  | DsPath p =>
      emit (EvInfo p);;
      do r <- get_file p;
      match r with
      | Some r => ret (info r)
      | None => raise BackendIOError
      end
  | DsHandle r => ret (info r)
  end.

(** Modelled from the spec: [fetchMatrix], the readable pixel matrix of a
    tile (section 3, "Tile"). *)
Definition fetchMatrix (d : Dataset) : M Matrix :=
  match d with
  | DsPath p =>
      emit (EvFetch p);;
      do r <- get_file p;
      match r with
      | Some r => ret (band r)
      | None => raise BackendIOError
      end
  | DsHandle r => ret (band r)
  end.

Definition isfile (p : string) : M bool :=
  emit (EvIsFile p);;
  do r <- get_file p;
  ret (bool_decide (is_Some r)).

(** Modelled from the spec: the raster [createRaster] makes,
    RasterStore.create of section 6 ("allocates a new raster on durable
    storage sized to cover [bounds] at the given resolution, pre-filled
    with [fillValue]"); without a fill value the cells hold the backend's
    default, 0. *)
Definition new_raster (bnds : Q * Q * Q * Q) (dtype : DType)
    (pixelWidth pixelHeight : Q) (noDataValue : option Pixel) (srs : SRS)
    (fillValue : option Pixel) : Raster :=
  let '(x0, y0, x1, y1) := bnds in
  let cols := Z.to_nat (Qceiling ((x1 - x0) / pixelWidth)) in
  let rows := Z.to_nat (Qceiling ((y1 - y0) / pixelHeight)) in
  mkRaster (mkInfo srs pixelWidth pixelHeight x0 y0 x1 y1 dtype
                   noDataValue true)
           (replicate rows (replicate cols (default (Num 0) fillValue))).

(** Modelled from the spec: [createRaster] stores the new raster of
    [new_raster] under [output]. *)
Definition createRaster (bnds : Q * Q * Q * Q) (output : string)
    (dtype : DType) (pixelWidth pixelHeight : Q)
    (noDataValue : option Pixel) (srs : SRS) (fillValue : option Pixel)
    : M unit :=
  let r := new_raster bnds dtype pixelWidth pixelHeight noDataValue srs
                      fillValue in
  emit (EvCreate output (info r) fillValue);;
  put_file output r.

(** Modelled from the spec: [gdal.Open(master, gdal.GA_Update)],
    RasterStore.open of section 6; the handle is the path. *)
Definition gdal_Open (p : string) : M string :=
  emit (EvOpen p);;
  do r <- get_file p;
  match r with
  | Some _ => ret p
  | None => raise BackendIOError
  end.

(** Modelled from the spec: [ReadAsArray], RasterBand.readWindow of
    section 6; a window outside the band is an I/O failure, which section
    4.1 has surfaced. *)
Definition ReadAsArray (p : string) (xoff yoff win_xsize win_ysize : Z)
    : M Matrix :=
  emit (EvRead p (mkWin xoff yoff win_xsize win_ysize));;
  do r <- get_file p;
  match r with
  | Some r =>
      if window_fits (band r) xoff yoff win_xsize win_ysize
      then ret (read_window (band r) xoff yoff win_xsize win_ysize)
      else raise BackendIOError
  | None => raise BackendIOError
  end.

(** Modelled from the spec: [WriteArray], RasterBand.writeWindow of
    section 6. *)
Definition WriteArray (p : string) (m : Matrix) (xoff yoff : Z) : M unit :=
  emit (EvWrite p xoff yoff m);;
  do r <- get_file p;
  match r with
  | Some r =>
      if write_fits (band r) xoff yoff m
      then put_file p (mkRaster (info r)
             (write_window (band r) (Z.to_nat xoff) (Z.to_nat yoff) m))
      else raise BackendIOError
  | None => raise BackendIOError
  end.

Definition FlushCache (p : string) : M unit := emit (EvFlush p).

(** Modelled from the spec: [calculateStats], RasterStore.computeStatistics
    of section 6; the statistics themselves are not part of the model. *)
Definition calculateStats (p : string) : M unit := emit (EvStats p).

(** Modelled from the spec: "must land on integers within floating-point
    tolerance" (section 4.2); the value is within [tol] of the integer
    [round] gives. *)
Definition lands_on_integer (v : Q) : bool :=
  Qle_bool (Qabs (v - inject_Z (round v))) tol.

(** Modelled from the spec: [Extent.findWithin], the SpatialIndexResolver
    of section 4.2. *)
Definition findWithin (m sub : Extent) (res : Q * Q) (yAtTop : bool)
    : Res SubWindow :=
  let '(mXMin, mYMin, mXMax, mYMax) := ext_bounds m in
  let '(sXMin, sYMin, sXMax, sYMax) := ext_bounds sub in
  let '(dx, dy) := res in
  let xOff := ((sXMin - mXMin) / dx)%Q in
  let yOff := (if yAtTop then (mYMax - sYMax) / dy
               else (sYMin - mYMin) / dy)%Q in
  let xW := ((sXMax - sXMin) / dx)%Q in
  let yW := ((sYMax - sYMin) / dy)%Q in
  if lands_on_integer xOff && lands_on_integer yOff
     && lands_on_integer xW && lands_on_integer yW
  then Ok (mkWin (round xOff) (round yOff) (round xW) (round yW))
  else Raise MisalignedTile.

(** ** [combineSimilarRasters]

    The keyword arguments are reduced to [noDataValue], the one the
    function reads; [verbose] only prints the index and name of each
    dataset and is left out. *)

(** Lines 9-15: the list of datasets. *)
Definition dataset_list (datasets : DatasetsArg) : M (list Dataset) :=
  match datasets with
  | ArgStr s =>
      emit (EvGlob s);;
      ret (DsPath <$> merge_sort String.le (glob s))
  | ArgDataset r => ret [DsHandle r]
  | ArgIter ds => ret ds
  end.

(** Lines 24-29: one tile against the first. *)
Definition check_dataset (info0 i : RasterInfo) : M unit :=
  if negb (IsSame (srs i) (srs info0))
  then raise (GeoKitError "SRS does not match in datasets")
  else if negb (Qeq_bool (dx i) (dx info0) && Qeq_bool (dy i) (dy info0))
  then raise (GeoKitError "Resolution does not match in datasets")
  else if negb (bool_decide (dtype i = dtype info0))
  then raise (GeoKitError "Datatype does not match in datasets")
  else ret tt.

(** Lines 61-66: the master against the first tile. *)
Definition check_master (info0 mInfo : RasterInfo) : M unit :=
  if negb (IsSame (srs mInfo) (srs info0))
  then raise (GeoKitError "SRS's do not match master dataset")
  else if negb (Qeq_bool (dx mInfo) (dx info0)
                && Qeq_bool (dy mInfo) (dy info0))
  then raise (GeoKitError "Resolution's do not match master dataset")
  else if negb (bool_decide (dtype mInfo = dtype info0))
  then raise (GeoKitError "Datatype's do not match master dataset")
  else ret tt.

(** [set(l)] for a list of nodata values, each read from a raster:
    values that compare equal are one element; a NaN equals nothing, and
    the NaN read from one raster is not the object read from another, so
    every NaN is an element of its own. The order of the elements plays
    no part below. *)
Fixpoint py_set (l : list (option Pixel)) : list (option Pixel) :=
  match l with
  | [] => []
  | x :: r =>
      if bool_decide (x ≠ Some NaN ∧ x ∈ r) then py_set r else x :: py_set r
  end.

(** Lines 40-44: the nodata value of a master to be created. *)
Definition choose_noData (noDataValue : option Pixel)
    (infoSet : list RasterInfo) : option Pixel :=
  match noDataValue with
  | Some v => Some v
  | None =>
      let noDataSet := py_set (noData <$> infoSet) in
      if decide (length noDataSet = 1)
      then match noDataSet with
           | v :: _ => v
           | [] => None
           end
      else None
  end.

(** Lines 91-98: the matrix to write. *)
Definition writeMatrix_of (combiningFunc : option CombiningFunc)
    (mMatrix : Matrix) (mInfo : RasterInfo)
    (dMatrix : Matrix) (dInfo : RasterInfo) : Res Matrix :=
  match combiningFunc with
  | Some f => Ok (f mMatrix mInfo dMatrix dInfo)
  | None =>
      match noData dInfo with
      | Some nd => mask_assign mMatrix dMatrix nd
      | None => Ok dMatrix
      end
  end.

(** Lines 75-102: the body of the loop, for one dataset. *)
Definition add_dataset (master : string) (mInfo : RasterInfo)
    (mExtent : Extent) (combiningFunc : option CombiningFunc)
    (d : Dataset * RasterInfo) : M unit :=
  let dExtent := mkExtent (bounds d.2) (srs d.2) in
  do dMatrix0 <- fetchMatrix d.1;
  let dMatrix := if yAtTop d.2 then dMatrix0 else reverse dMatrix0 in
  do idx <- lift (findWithin mExtent dExtent (dx mInfo, dy mInfo)
                             (yAtTop mInfo));
  do mMatrix <- ReadAsArray master (xStart idx) (yStart idx)
                            (xWin idx) (yWin idx);
  do writeMatrix <- lift (writeMatrix_of combiningFunc mMatrix mInfo
                                         dMatrix d.2);
  WriteArray master writeMatrix (xStart idx) (yStart idx);;
  FlushCache master.

(** Lines 38-54: create the master when there is none. *)
Definition maybe_create (master : string) (noDataValue : option Pixel)
    (info0 : RasterInfo) (infoSet : list RasterInfo)
    (dataBounds : Q * Q * Q * Q) : M unit :=
  do there <- isfile master;
  if negb there
  then
    let noDataValue := choose_noData noDataValue infoSet in
    createRaster dataBounds master (dtype info0) (dx info0) (dy info0)
                 noDataValue (srs info0) noDataValue
  else ret tt.

(** Lines 56-107: open the master, check it against the first tile, add
    every dataset in order, then flush and recompute the statistics. *)
Definition merge_phase (master : string) (info0 : RasterInfo)
    (combiningFunc : option CombiningFunc)
    (tiles : list (Dataset * RasterInfo)) : M unit :=
  do masterDS <- gdal_Open master;
  do mInfo <- rasterInfo (DsPath masterDS);
  let mExtent := mkExtent (bounds mInfo) (srs mInfo) in
  check_master info0 mInfo;;
  forM_ (add_dataset masterDS mInfo mExtent combiningFunc) tiles;;
  FlushCache masterDS;;
  calculateStats masterDS.

Definition combineSimilarRasters (master : string) (datasets : DatasetsArg)
    (combiningFunc : option CombiningFunc) (noDataValue : option Pixel)
    : M unit :=
  do datasets <- dataset_list datasets;
  if decide (length datasets = 0)
  then raise (GeoKitError "No datasets given")
  else
  do infoSet <- mapM rasterInfo datasets;
  match infoSet with
  | [] => raise IndexError
  | info0 :: others =>
      forM_ (check_dataset info0) others;;
      do dataXMin <- lift (py_min (xMin <$> infoSet));
      do dataXMax <- lift (py_max (xMax <$> infoSet));
      do dataYMin <- lift (py_min (yMin <$> infoSet));
      do dataYMax <- lift (py_max (yMax <$> infoSet));
      maybe_create master noDataValue info0 infoSet
                   (dataXMin, dataYMin, dataXMax, dataYMax);;
      merge_phase master info0 combiningFunc (zip datasets infoSet)
  end.

End compositor.

(** ** Vocabulary of the statements *)

(** The raster a dataset stands for, given what is stored. *)
Definition dataset_raster (fs : gmap string Raster) (d : Dataset)
    : option Raster :=
  match d with
  | DsPath p => fs !! p
  | DsHandle r => Some r
  end.

(** The tile's matrix as the loop uses it: top-down. *)
Definition top_down (r : Raster) : Matrix :=
  if yAtTop (info r) then band r else reverse (band r).

(** The accesses [rasterInfo] makes for a list of datasets. *)
Definition info_events (ds : list Dataset) : list Event :=
  omap (λ d, match d with
             | DsPath p => Some (EvInfo p)
             | DsHandle _ => None
             end) ds.

(** Two rasters agree on spatial reference, pixel width, pixel height and
    datatype. *)
Definition agrees (info0 i : RasterInfo) : Prop :=
  srs i = srs info0 ∧ (dx i == dx info0)%Q ∧ (dy i == dy info0)%Q
  ∧ dtype i = dtype info0.

(** The window of a tile in the grid of a master. *)
Definition window_of (tol : Q) (mInfo dInfo : RasterInfo) : Res SubWindow :=
  findWithin tol (mkExtent (bounds mInfo) (srs mInfo))
             (mkExtent (bounds dInfo) (srs dInfo))
             (dx mInfo, dy mInfo) (yAtTop mInfo).

(** [v] is within [tol] of the integer [n]. *)
Definition near (tol v : Q) (n : Z) : Prop :=
  (Qabs (v - inject_Z n) <= tol)%Q.

(** An event that creates or changes a raster. *)
Definition is_mutation (e : Event) : bool :=
  match e with
  | EvCreate _ _ _ | EvWrite _ _ _ _ => true
  | _ => false
  end.


(** The list of datasets an argument stands for, and the access made to
    obtain it. *)
Definition datasets_of (glob : string → list string) (a : DatasetsArg)
    : list Dataset :=
  match a with
  | ArgStr s => DsPath <$> merge_sort String.le (glob s)
  | ArgDataset r => [DsHandle r]
  | ArgIter ds => ds
  end.
Definition glob_events (a : DatasetsArg) : list Event :=
  match a with
  | ArgStr s => [EvGlob s]
  | _ => []
  end.

(** Every dataset of [ds] can be described, and [infos] are the
    descriptions. *)
Definition described (fs : gmap string Raster) (ds : list Dataset)
    (infos : list RasterInfo) : Prop :=
  Forall2 (λ d i, info <$> dataset_raster fs d = Some i) ds infos.

(** The message [msg] names a field on which [i] differs from [info0]. *)
Definition names_mismatch (msg : string) (info0 i : RasterInfo) : Prop :=
  (msg = "SRS does not match in datasets" ∧ srs i ≠ srs info0)
  ∨ (msg = "Resolution does not match in datasets"
     ∧ (¬ (dx i == dx info0)%Q ∨ ¬ (dy i == dy info0)%Q))
  ∨ (msg = "Datatype does not match in datasets" ∧ dtype i ≠ dtype info0).

(** [m] is the least (the greatest) value of [l]. *)
Definition is_min (l : list Q) (m : Q) : Prop :=
  m ∈ l ∧ ∀ x, x ∈ l → (m <= x)%Q.
Definition is_max (l : list Q) (m : Q) : Prop :=
  m ∈ l ∧ ∀ x, x ∈ l → (x <= m)%Q.

(** [b] is the union of the bounding boxes of [infos]. *)
Definition union_bbox (infos : list RasterInfo) (b : Q * Q * Q * Q) : Prop :=
  is_min (xMin <$> infos) b.1.1.1 ∧ is_min (yMin <$> infos) b.1.1.2
  ∧ is_max (xMax <$> infos) b.1.2 ∧ is_max (yMax <$> infos) b.2.

(** The bounding box computed on lines 32-35. *)
Definition data_bounds (info0 : RasterInfo) (others : list RasterInfo)
    : Q * Q * Q * Q :=
  (min_from (xMin info0) (xMin <$> others),
   min_from (yMin info0) (yMin <$> others),
   max_from (xMax info0) (xMax <$> others),
   max_from (yMax info0) (yMax <$> others)).


(** Nothing in [st'] differs from [st] but the contents of bands: the
    same paths are stored, with the same metadata. *)
Definition keeps_infos (st st' : State) : Prop :=
  ∀ p, info <$> files st' !! p = info <$> files st !! p.

(** Whatever [m] does and however it ends, the states before and after
    are related by [R]. *)
Definition invariant {A} (R : State → State → Prop) (m : M A) : Prop :=
  ∀ st, R st (m st).2.

(** The access [fetchMatrix] makes for a dataset. *)
Definition fetch_events (d : Dataset) : list Event :=
  match d with
  | DsPath p => [EvFetch p]
  | DsHandle _ => []
  end.

(** The steps of a merge that a log records: the matrix of the tile
    stored under a path is fetched; a matrix is written into the raster
    stored under a path. *)
Inductive Step :=
| Fetched (path : string)
| Written (path : string).

Definition step_of (e : Event) : option Step :=
  match e with
  | EvFetch p => Some (Fetched p)
  | EvWrite p _ _ _ => Some (Written p)
  | _ => None
  end.

Definition steps (tr : list Event) : list Step := omap step_of tr.

(** The steps of merging the datasets [ds], each in turn, into [master]:
    the dataset is fetched (a step of the log when it is a path) and
    the master is written. *)
Definition dataset_steps (master : string) (ds : list Dataset) : list Step :=
  ds ≫= λ d, match d with
             | DsPath p => [Fetched p; Written master]
             | DsHandle _ => [Written master]
             end.
Definition tile_steps (master : string) (paths : list string) : list Step :=
  paths ≫= λ p, [Fetched p; Written master].

(** The log of [st'] records the steps of the log of [st] and no
    others. *)
Definition same_steps (st st' : State) : Prop :=
  steps (trace st') = steps (trace st).

(** Started in [st], [m] adds the steps [L] to the log, in this order,
    when it returns, and the first so many of them when it raises. *)
Definition logs {A} (L : list Step) (m : M A) (st : State) : Prop :=
  (∃ k, steps (trace (m st).2) = steps (trace st) ++ take k L)
  ∧ (∀ a, (m st).1 = Ok a → steps (trace (m st).2) = steps (trace st) ++ L).

(** The value the default policy puts where the tile has [d] and the
    master has [m], for a tile with nodata value [nd]. *)
Definition overlay (nd m d : Pixel) : Pixel :=
  if pixel_ne d nd then d else m.

(** The stored rasters once the master is there: as they were when the
    master was stored already, with the new raster [mr0] otherwise. *)
Definition with_master (master : string) (mr0 : Raster)
    (fs : gmap string Raster) : gmap string Raster :=
  match fs !! master with
  | Some _ => fs
  | None => <[master := mr0]> fs
  end.


(** ** Sample rasters

    Tiles on a grid of resolution 1 in EPSG:4326. A covers columns 0-1, B
    and S cover columns 1-2 (S declares the nodata value 0), F differs
    from A in datatype only; the master M covers columns 0-2. *)
Definition ex_info (x0 x1 : Q) (dt : DType) (nd : option Pixel)
    : RasterInfo :=
  mkInfo 4326%Z 1%Q 1%Q x0 0%Q x1 2%Q dt nd true.
Definition ex_A : Raster :=
  mkRaster (ex_info 0 2 GDT_Int16 None) (px [[1; 2]; [3; 4]]%Z).
Definition ex_B : Raster :=
  mkRaster (ex_info 1 3 GDT_Int16 None) (px [[5; 6]; [7; 8]]%Z).
Definition ex_S : Raster :=
  mkRaster (ex_info 1 3 GDT_Int16 (Some (Num 0))) (px [[0; 6]; [7; 0]]%Z).
Definition ex_F : Raster :=
  mkRaster (ex_info 1 3 GDT_Float32 None) (px [[5; 6]; [7; 8]]%Z).
Definition ex_M : Raster :=
  mkRaster (ex_info 0 3 GDT_Int16 None) (px [[1; 2; 9]; [3; 4; 9]]%Z).

Definition ex_N : Raster :=
  mkRaster (ex_info 1 3 GDT_Float32 (Some NaN))
           [[NaN; Num 6]; [Num 7; NaN]].
Definition ex_MF : Raster :=
  mkRaster (ex_info 0 3 GDT_Float32 None) (px [[1; 2; 9]; [3; 4; 9]]%Z).
Definition ex_float : State := mkState {[ "m" := ex_MF ]} [].

(** The larger of two pixel values, NaN when one is NaN. *)
Definition ex_max (a b : Pixel) : Pixel :=
  match a, b with
  | Num x, Num y => Num (Z.max x y)
  | _, _ => NaN
  end.

(** No raster stored; the master M stored under "m". *)
Definition ex_none : State := mkState ∅ [].
Definition ex_stored : State := mkState {[ "m" := ex_M ]} [].
Definition ex_glob : string → list string := λ _, [].

(** The tiles B and A stored under "b.tif" and "a.tif", which a pattern
    matches in this order. *)
Definition ex_tiles : State :=
  mkState {[ "b.tif" := ex_B; "a.tif" := ex_A ]} [].
Definition ex_glob_ba : string → list string := λ _, ["b.tif"; "a.tif"].

(** A bottom-up raster U that declares the nodata value 0, stored under
    "m". *)
Definition ex_U : Raster :=
  mkRaster (mkInfo 4326%Z 1%Q 1%Q 0%Q 0%Q 1%Q 2%Q GDT_Int16 (Some (Num 0))
                   false)
           (px [[1]; [2]]%Z).
Definition ex_self : State := mkState {[ "m" := ex_U ]} [].

(** ** Vocabulary of the further properties *)

(** Every raster stored in [st] is still stored in [st'], with the
    metadata it had, and no path but [master] holds anything else than it
    held. *)
Definition untouched (master : string) (st st' : State) : Prop :=
  (∀ p, p ≠ master → files st' !! p = files st !! p)
  ∧ (∀ p r, files st !! p = Some r →
            ∃ r', files st' !! p = Some r' ∧ info r' = info r).

(** The message [msg] names a field on which the master differs from the
    first tile. *)
Definition names_master_mismatch (msg : string) (info0 mInfo : RasterInfo)
    : Prop :=
  (msg = "SRS's do not match master dataset" ∧ srs mInfo ≠ srs info0)
  ∨ (msg = "Resolution's do not match master dataset"
     ∧ (¬ (dx mInfo == dx info0)%Q ∨ ¬ (dy mInfo == dy info0)%Q))
  ∨ (msg = "Datatype's do not match master dataset"
     ∧ dtype mInfo ≠ dtype info0).

(** The cell [(r, c)] of a band lies under the matrix [m] put with its
    top left corner at column [x0], row [y0]. *)
Definition under (x0 y0 : nat) (m : Matrix) (r c : nat) : Prop :=
  (y0 ≤ r)%nat ∧ (x0 ≤ c)%nat ∧ is_Some (mget m (r - y0) (c - x0)).

(** ** [core/srs.py]: [SRSCOMMON] and [loadSRS]

    The OSR calls are parameters of the model; the control flow around
    them is the source's. *)

(** The exceptions of this part of the library. [SRSNotFound name] is the
    [ValueError] of [SRSCOMMON.__getitem__]. *)
Inductive PyExn :=
| SRSNotFound (name : string)
| AttributeError (name : string)
| GeoKitSRSError (msg : string)
| GeoKitGeomError (msg : string)
| PyIndexError
| ZeroDivisionError
| LibraryError.

Inductive Outcome (A : Type) :=
| Returns (a : A)
| Raises (e : PyExn).
Arguments Returns {A} a.
Arguments Raises {A} e.

#[global] Instance Outcome_ret : MRet Outcome := λ A a, Returns a.
#[global] Instance Outcome_bind : MBind Outcome :=
  λ A B k m, match m with
             | Returns a => k a
             | Raises e => Raises e
             end.

(** The Python values an [srs] argument can be: a spatial reference,
    [None], a string, an integer, or something else. *)
Inductive PyVal (SR : Type) :=
| VSRS (s : SR)
| VNone
| VStr (s : string)
| VInt (n : Z)
| VOther.
Arguments VSRS {SR} s.
Arguments VNone {SR}.
Arguments VStr {SR} s.
Arguments VInt {SR} n.
Arguments VOther {SR}.

Section srs.
Context {SR : Type}.
(** OSR: [srs.ImportFromWkt(s)] and [srs.ImportFromEPSG(n)] on a fresh
    spatial reference (the code does not look at their error codes). *)
Context (ImportFromWkt : string → SR) (ImportFromEPSG : Z → SR).
(** The attributes every Python object has, with their values. *)
Context (object_getattr : string → option (PyVal SR)).

(** [getattr(SRSCOMMON, name)], from the body of the class
    [_SRSCOMMON]; [None] when there is no such attribute. *)
Definition SRSCOMMON_getattr (name : string) : option (PyVal SR) :=
  if decide (name = "_latlon") then Some (VSRS (ImportFromEPSG 4326))
  else if decide (name = "latlon") then Some (VSRS (ImportFromEPSG 4326))
  else if decide (name = "_europe_m") then Some (VSRS (ImportFromEPSG 3035))
  else if decide (name = "europe_m") then Some (VSRS (ImportFromEPSG 3035))
  else if decide (name = "__getitem__") then Some VOther
  else object_getattr name.

Definition hasattr_SRSCOMMON (name : string) : bool :=
  bool_decide (is_Some (SRSCOMMON_getattr name)).

(** [SRSCOMMON.__getitem__]. *)
Definition SRSCOMMON_getitem (name : string) : Outcome (PyVal SR) :=
  if negb (hasattr_SRSCOMMON name) then Raises (SRSNotFound name)
  else match SRSCOMMON_getattr ("_" +:+ name) with
       | Some v => Returns v
       | None => Raises (AttributeError ("_" +:+ name))
       end.

(** [loadSRS]. *)
Definition loadSRS (source : PyVal SR) : Outcome (PyVal SR) :=
  match source with
  | VSRS s => Returns (VSRS s)
  | VNone => Returns VNone
  | VStr s =>
      if hasattr_SRSCOMMON s then SRSCOMMON_getitem s
      else Returns (VSRS (ImportFromWkt s))
  | VInt n => Returns (VSRS (ImportFromEPSG n))
  | VOther => Raises (GeoKitSRSError "Unknown srs source type: ")
  end.

(** A name that starts with exactly two underscores and ends with two,
    as the names of the attributes every Python object has. *)
Definition is_dunder (name : string) : bool :=
  String.prefix "__" name && negb (String.prefix "___" name)
  && String.prefix "__" (String.rev name).

Definition dunder_attributes : Prop :=
  ∀ n v, object_getattr n = Some v → is_dunder n = true.

End srs.

(** ** [geomutil.transform] and [geomutil.convertMask]

    The OGR, OSR and GDAL calls are parameters of the model, and so is the
    [loadSRS] these functions import from [_core/srsutil.py]. Numbers are
    exact rationals, as above. *)

(** The [geoms] argument of [transform]: one geometry or an iterable. *)
Inductive GeomsArg (Geom : Type) :=
| OneGeom (g : Geom)
| ManyGeoms (l : list Geom).
Arguments OneGeom {Geom} g.
Arguments ManyGeoms {Geom} l.

(** What [transform] returns: [geoms[0]] or [geoms]. *)
Inductive Transformed (Geom : Type) :=
| TOne (g : Geom)
| TMany (l : list Geom).
Arguments TOne {Geom} g.
Arguments TMany {Geom} l.

(** The [mask] argument of [convertMask]: not an array, or an array with
    its dtype, its shape and its entries. *)
Inductive MaskDType := DBool | DUint8 | DOtherType.
Inductive MaskArg :=
| NotNdarray
| Ndarray (dt : MaskDType) (rows cols : nat) (data : list (list Z)).

Definition dtype_is_bool (dt : MaskDType) : bool :=
  match dt with DBool => true | _ => false end.
Definition dtype_is_uint8 (dt : MaskDType) : bool :=
  match dt with DUint8 => true | _ => false end.

(** The [bounds] argument of [convertMask]: [None], a tuple of four
    numbers, an object with [xyXY] and [srs] that does not unpack into
    four (an [Extent]), or something else. *)
Inductive BoundsArg (SR Number : Type) :=
| BNone
| BTuple (b : Number * Number * Number * Number)
| BExtent (xyXY : Number * Number * Number * Number) (srs : PyVal SR)
| BOther.
Arguments BNone {SR Number}.
Arguments BTuple {SR Number} b.
Arguments BExtent {SR Number} xyXY srs.
Arguments BOther {SR Number}.

(** What [convertMask] returns: [None], one geometry, or a list. *)
Inductive MaskResult (Geom : Type) :=
| MNone
| MGeom (g : Geom)
| MList (l : list Geom).
Arguments MNone {Geom}.
Arguments MGeom {Geom} g.
Arguments MList {Geom} l.

(** [sum(r)]. *)
Definition sum_codes (r : list Z) : Z := foldr Z.add 0%Z r.

Definition geoms_list {Geom} (geoms : GeomsArg Geom) : list Geom :=
  match geoms with
  | OneGeom g => [g]
  | ManyGeoms l => l
  end.

Section geometry.
Context {SR Geom Trx Number : Type}.
(** [loadSRS] of [_core/srsutil.py]. *)
Context (srsutil_loadSRS : PyVal SR → Outcome (PyVal SR)).
(** OGR and OSR: [g.GetSpatialReference()],
    [osr.CoordinateTransformation(a, b)], [g.Segmentize(s)],
    [g.Transform(trx)] (the geometry afterwards and the error code) and
    [g.Union(h)]. *)
Context (GetSpatialReference : Geom → option SR)
        (CoordinateTransformation : PyVal SR → PyVal SR → Outcome Trx)
        (Segmentize : Geom → Q → Geom)
        (Transform : Geom → Trx → Geom * Z)
        (Union : Geom → Geom → Geom).
(** GDAL: whether the in-memory driver creates a raster of [cols] by
    [rows], and [gdal.Polygonize] from the mask written into this raster,
    with its geotransform and projection, into a layer of the given
    [srs]: the result code and the features of the layer. The temporary
    vector dataset is taken to be created. *)
Context (mem_Create : Z → Z → bool)
        (Polygonize : list (list bool)
                      → Number * Number * Number * Number * Number * Number
                      → option SR → PyVal SR → Z * list Geom).
(** Python's numbers as [convertMask] computes with them: an integer as
    a number, [a - b], [a / b] (which can raise, as on a zero divisor),
    [a * b], [abs(a)] and [round(a)]. Floating-point arithmetic is not
    modelled: these operations are parameters. *)
Context (of_int : Z → Number)
        (num_sub : Number → Number → Number)
        (num_div : Number → Number → Outcome Number)
        (num_mul : Number → Number → Number)
        (num_abs : Number → Number)
        (num_round : Number → Outcome Z).

(** Lines 370-380 of [transform]: the coordinate transformation. *)
Definition transformer (geoms : list Geom) (toSRS fromSRS : PyVal SR)
    : Outcome Trx :=
  fromSRS ← match fromSRS return Outcome (PyVal SR) with
            | VNone =>
                match geoms with
                | [] => Raises PyIndexError
                | g0 :: _ =>
                    match GetSpatialReference g0 with
                    | None => Raises (GeoKitGeomError
                                "Could not determine fromSRS from geometry")
                    | Some s => Returns (VSRS s)
                    end
                end
            | _ => Returns fromSRS
            end;
  fromSRS ← srsutil_loadSRS fromSRS;
  toSRS ← srsutil_loadSRS toSRS;
  CoordinateTransformation fromSRS toSRS.

(** Lines 383-384 of [transform]: the geometries that are transformed. *)
Definition segmented (segment : option Q) (g : Geom) : Geom :=
  match segment with
  | Some seg => Segmentize g seg
  | None => g
  end.

(** [transform]. *)
Definition transform (geoms : GeomsArg Geom) (toSRS fromSRS : PyVal SR)
    (segment : option Q) : Outcome (Transformed Geom) :=
  let geoms := geoms_list geoms in
  trx ← transformer geoms toSRS fromSRS;
  let geoms := segmented segment <$> geoms in
  let r := (λ g, Transform g trx) <$> geoms in
  if (0 <? sum_codes (snd <$> r))%Z
  then Raises (GeoKitGeomError "Errors in geometry transformations")
  else match fst <$> r with
       | [g] => Returns (TOne g)
       | l => Returns (TMany l)
       end.

(** Lines 231-232 of [convertMask]: the width and the height of a
    pixel. *)
Definition mask_pixel_size (b : Number * Number * Number * Number)
    (rows cols : nat) : Outcome (Number * Number) :=
  let '(xMin, yMin, xMax, yMax) := b in
  pixelHeight ← num_div (num_sub yMax yMin) (of_int (Z.of_nat rows));
  pixelWidth ← num_div (num_sub xMax xMin) (of_int (Z.of_nat cols));
  Returns (pixelWidth, pixelHeight).

(** Lines 238-239 of [convertMask]: the columns and rows of the raster
    the mask is written into. *)
Definition mask_raster_size (b : Number * Number * Number * Number)
    (pixel : Number * Number) : Outcome (Z * Z) :=
  let '(xMin, yMin, xMax, yMax) := b in
  c ← num_div (num_sub xMax xMin) pixel.1;
  cols ← num_round c;
  r ← num_div (num_sub yMax yMin) (num_abs pixel.2);
  rows ← num_round r;
  Returns (cols, rows).

(** [convertMask]. *)
Definition convertMask (mask : MaskArg) (bounds : BoundsArg SR Number)
    (srs : PyVal SR) (flat : bool) : Outcome (MaskResult Geom) :=
  match mask with
  | NotNdarray =>
      Raises (GeoKitGeomError "Mask must be a 2D boolean numpy ndarray")
  | Ndarray dt rows cols data =>
      if negb (dtype_is_bool dt) && negb (dtype_is_uint8 dt)
      then Raises (GeoKitGeomError "Mask must be a 2D boolean numpy ndarray")
      else
      let mask : list (list bool) :=
        map (map (λ v, negb (v =? 0)%Z)) data in
      bs ← match bounds
           return Outcome (Number * Number * Number * Number * PyVal SR) with
           | BNone =>
               Returns ((of_int 0, of_int 0, of_int (Z.of_nat cols),
                         of_int (Z.of_nat rows)), srs)
           | BTuple b => Returns (b, srs)
           | BExtent xyXY s => Returns (xyXY, s)
           | BOther =>
               Raises (GeoKitGeomError "Could not understand 'bounds' input")
           end;
      pixel ← mask_pixel_size bs.1 rows cols;
      srs ← match bs.2 return Outcome (PyVal SR) with
            | VNone => Returns VNone
            | s => srsutil_loadSRS s
            end;
      size ← mask_raster_size bs.1 pixel;
      if negb (mem_Create size.1 size.2)
      then Raises (GeoKitGeomError "Failed to create temporary raster")
      else
      projection ← match srs return Outcome (option SR) with
                   | VNone => Returns None
                   | s =>
                       rasterSRS ← srsutil_loadSRS s;
                       match rasterSRS with
                       | VSRS r => Returns (Some r)
                       | _ => Raises (AttributeError "ExportToWkt")
                       end
                   end;
      let polygonized :=
        Polygonize mask
          (bs.1.1.1.1, num_abs pixel.1, of_int 0, bs.1.2, of_int 0,
           num_mul (of_int (-1)) (num_abs pixel.2))
          projection srs in
      if negb (polygonized.1 =? 0)%Z
      then Raises (GeoKitGeomError "Failed to polygonize geometry")
      else match polygonized.2 with
           | [] => Returns MNone
           | features =>
               if flat
               then Returns (match flatten Union features with
                             | Some g => MGeom g
                             | None => MNone
                             end)
               else Returns (MList features)
           end
  end.

End geometry.

(** ** Sample library behaviour

    Spatial references as EPSG codes, geometries as integers, a
    coordinate transformation as a shift. *)

Definition ex_object_getattr (name : string) : option (PyVal Z) :=
  if decide (name = "__class__") then Some VOther else None.

Definition ex_ImportFromWkt (wkt : string) : Z := 0.
Definition ex_ImportFromEPSG (n : Z) : Z := n.

Definition ex_loadSRS : PyVal Z → Outcome (PyVal Z) :=
  loadSRS ex_ImportFromWkt ex_ImportFromEPSG ex_object_getattr.

Definition ex_GetSpatialReference (g : Z) : option Z := Some 4326%Z.

Definition ex_CoordinateTransformation (a b : PyVal Z) : Outcome Z :=
  match a, b with
  | VSRS x, VSRS y => Returns (y - x)%Z
  | _, _ => Raises LibraryError
  end.

Definition ex_Segmentize (g : Z) (seg : Q) : Z := g.

(** A transformation that fails on negative geometries. *)
Definition ex_Transform (g trx : Z) : Z * Z :=
  if (g <? 0)%Z then (g, 6%Z) else ((g + trx)%Z, 0%Z).

Definition ex_mem_Create (cols rows : Z) : bool :=
  (0 <? cols)%Z && (0 <? rows)%Z.

(** Numbers as exact rationals. *)
Definition ex_div (a b : Q) : Outcome Q :=
  if Qeq_bool b 0 then Raises ZeroDivisionError else Returns (a / b)%Q.
Definition ex_round (a : Q) : Outcome Z := Returns (round a).

(** One feature for each row of the mask that has a cell set: the number
    of the row. *)
Definition ex_Polygonize (mask : list (list bool))
    (gt : Q * Q * Q * Q * Q * Q) (projection : option Z) (srs : PyVal Z)
    : Z * list Z :=
  (0%Z,
   omap (λ ir, if existsb id ir.2 then Some (Z.of_nat ir.1) else None)
        (imap (λ i row, (i, row)) mask)).

(* ===================================================================== *)
(** * Part II: theorems                                                    *)
(* ===================================================================== *)

(** ** [flatten] *)

Section flatten_facts.
Context {G : Type} (Union : G → G → G).

(** Induction two elements at a time, the way [union_round] recurses. *)
Lemma pairs_ind (P : list G → Prop) :
  P [] → (∀ a, P [a]) → (∀ a b r, P r → P (a :: b :: r)) → ∀ l, P l.
Proof.
  intros H0 H1 H2 l.
  cut (P l ∧ ∀ a, P (a :: l)); [tauto |].
  induction l as [|b r [IHr IHr']]; split; auto.
Qed.

Lemma union_round_length (l : list G) : length (union_round Union l) ≤ length l.
Proof. induction l using pairs_ind; simpl; lia. Qed.

Lemma union_round_nonempty (l : list G) : l ≠ [] → union_round Union l ≠ [].
Proof. destruct l as [|a [|b r]]; simpl; congruence. Qed.

(** The loop stops only with at most one geometry left, and never loses
    the last one. *)
Lemma flatten_loop_length (l : list G) : length (flatten_loop Union l) ≤ 1.
Proof. funelim (flatten_loop Union l); [assumption | lia]. Qed.

Lemma flatten_loop_nonempty (l : list G) : l ≠ [] → flatten_loop Union l ≠ [].
Proof.
  funelim (flatten_loop Union l); intros Hl; [| assumption].
  match goal with IH : _ → flatten_loop _ _ ≠ [] |- _ => apply IH end.
  by apply union_round_nonempty.
Qed.

Section associative.
Hypothesis Union_assoc : ∀ a b c, Union a (Union b c) = Union (Union a b) c.

(** A round leaves the left fold from any accumulator as it was. *)
Lemma fold_union_round (l : list G) :
  ∀ x, fold_left Union (union_round Union l) x = fold_left Union l x.
Proof.
  induction l as [| a | a b r IH] using pairs_ind; intros x; simpl; try done.
  by rewrite IH, Union_assoc.
Qed.

Lemma union_fold_round (l : list G) :
  union_fold Union (union_round Union l) = union_fold Union l.
Proof.
  destruct l as [|a [|b r]]; simpl; try done.
  by rewrite fold_union_round.
Qed.

Lemma union_fold_loop (l : list G) :
  union_fold Union (flatten_loop Union l) = union_fold Union l.
Proof.
  funelim (flatten_loop Union l); [| done].
  match goal with IH : union_fold _ (flatten_loop _ _) = _ |- _ => rewrite IH end.
  apply union_fold_round.
Qed.

(** Associativity alone makes the balanced reduction a left fold. *)
Lemma flatten_union_fold (l : list G) : flatten Union l = union_fold Union l.
Proof.
  destruct l as [|g0 rest]; [done |].
  pose proof (flatten_loop_length (g0 :: rest)) as Hlen.
  pose proof (flatten_loop_nonempty (g0 :: rest)) as Hne.
  pose proof (union_fold_loop (g0 :: rest)) as Hfold.
  unfold flatten.
  destruct (flatten_loop Union (g0 :: rest)) as [|x [|y r]];
    simpl in *; [naive_solver | done | lia].
Qed.

End associative.
End flatten_facts.

(** C9. For every non-empty list of geometries, the balanced pairwise
    reduction of [flatten] (union the adjacent pairs, carry an unpaired
    last geometry over, repeat until one is left) returns a geometry, and
    it is the one a naive left fold of [Union] over the list returns, when
    [Union] is associative and commutative. (The proof uses associativity
    only.) *)
Theorem flatten_is_left_fold {G : Type} (Union : G → G → G) (geoms : list G) :
  (∀ a b c, Union a (Union b c) = Union (Union a b) c) →
  (∀ a b, Union a b = Union b a) →
  geoms ≠ [] →
  flatten Union geoms = union_fold Union geoms
  ∧ ∃ g0 rest, geoms = g0 :: rest
               ∧ flatten Union geoms = Some (fold_left Union rest g0).
Proof.
  intros Hassoc _ Hne. split; [by apply flatten_union_fold |].
  destruct geoms as [|g0 rest]; [done |].
  exists g0, rest. split; [done |]. by rewrite flatten_union_fold.
Qed.

(** Five integers under [Z.max]: an odd round carries the last one over. *)
Lemma flatten_is_left_fold_witness :
  flatten Z.max [3; 1; 4; 1; 5]%Z = union_fold Z.max [3; 1; 4; 1; 5]%Z
  ∧ ∃ g0 rest, [3; 1; 4; 1; 5]%Z = g0 :: rest
      ∧ flatten Z.max [3; 1; 4; 1; 5]%Z = Some (fold_left Z.max rest g0).
Proof.
  apply (flatten_is_left_fold Z.max [3; 1; 4; 1; 5]%Z).
  - intros a b c. apply Z.max_assoc.
  - intros a b. apply Z.max_comm.
  - discriminate.
Defined.

(** ** The list of datasets *)

Lemma dataset_list_run glob a st :
  dataset_list glob a st
  = (Ok (datasets_of glob a),
     mkState (files st) (trace st ++ glob_events a)).
Proof.
  destruct st as [fs tr], a; simpl; unfold ret; simpl;
    rewrite ?app_nil_r; reflexivity.
Qed.

(** C3. With an empty sequence of datasets the operation raises the
    error "No datasets given" and leaves storage and the log of accesses
    as they were: no raster is created, opened, read or written. *)
Theorem no_datasets_no_io glob tol master combiningFunc noDataValue st :
  combineSimilarRasters glob tol master (ArgIter []) combiningFunc
                        noDataValue st
  = (Raise (GeoKitError "No datasets given"), st).
Proof. reflexivity. Qed.

(** [String.le] is the lexicographic order of [String.compare]. *)
Lemma String_le_compare (s1 s2 : string) :
  String.le s1 s2 ↔ (s1 ?= s2)%string ≠ Gt.
Proof.
  unfold String.le, String.leb.
  destruct (s1 ?= s2)%string; simpl; split; (done || congruence || tauto).
Qed.

(** ** Running the monad *)

Lemma bind_run {A B} (m : M A) (k : A → M B) st a st' :
  m st = (Ok a, st') → bind m k st = k a st'.
Proof. unfold bind. by intros ->. Qed.

Lemma bind_raise {A B} (m : M A) (k : A → M B) st e st' :
  m st = (Raise e, st') → bind m k st = (Raise e, st').
Proof. unfold bind. by intros ->. Qed.

Lemma bind_inv {A B} (m : M A) (k : A → M B) st b st' :
  bind m k st = (Ok b, st') →
  ∃ a st1, m st = (Ok a, st1) ∧ k a st1 = (Ok b, st').
Proof.
  unfold bind. destruct (m st) as [[a|e] st1]; [eauto | discriminate].
Qed.

(** ** Describing and validating the tiles *)

Lemma rasterInfo_run fs d i tr :
  info <$> dataset_raster fs d = Some i →
  rasterInfo d (mkState fs tr) = (Ok i, mkState fs (tr ++ info_events [d])).
Proof.
  destruct d as [p|r]; simpl; intros Hd.
  - unfold bind, emit, get_file; simpl.
    destruct (fs !! p) as [r|]; [| discriminate].
    by injection Hd as <-.
  - injection Hd as <-. unfold ret. by rewrite app_nil_r.
Qed.

Lemma info_events_cons d ds :
  info_events (d :: ds) = info_events [d] ++ info_events ds.
Proof. unfold info_events. simpl. by destruct d. Qed.

Lemma mapM_rasterInfo_run fs ds infos :
  described fs ds infos →
  ∀ tr, mapM rasterInfo ds (mkState fs tr)
        = (Ok infos, mkState fs (tr ++ info_events ds)).
Proof.
  induction 1 as [|d i ds infos Hd _ IH]; intros tr.
  - simpl. unfold ret. by rewrite app_nil_r.
  - cbn [mapM].
    erewrite bind_run by (apply rasterInfo_run; exact Hd).
    erewrite bind_run by apply IH.
    unfold ret. by rewrite (info_events_cons d ds), app_assoc.
Qed.

Lemma described_length fs ds infos :
  described fs ds infos → length ds = length infos.
Proof. apply Forall2_length. Qed.

(** One check either passes on a tile that agrees with the first, or
    raises with a message for a field on which it differs; it touches
    nothing. *)
Lemma check_dataset_cases info0 i st :
  (agrees info0 i ∧ check_dataset info0 i st = (Ok tt, st))
  ∨ (∃ msg, check_dataset info0 i st = (Raise (GeoKitError msg), st)
            ∧ names_mismatch msg info0 i).
Proof.
  unfold check_dataset, agrees, names_mismatch, IsSame.
  destruct (bool_decide_reflect (srs i = srs info0)) as [Hs|Hs]; simpl;
    [| right; eexists; split; [reflexivity | auto]].
  destruct (Qeq_bool (dx i) (dx info0)) eqn:Hx; simpl;
    [| right; eexists; split; [reflexivity |];
       right; left; split; [done |]; left;
       by apply Qeq_bool_neq].
  destruct (Qeq_bool (dy i) (dy info0)) eqn:Hy; simpl;
    [| right; eexists; split; [reflexivity |];
       right; left; split; [done |]; right;
       by apply Qeq_bool_neq].
  apply Qeq_bool_iff in Hx, Hy.
  destruct (bool_decide_reflect (dtype i = dtype info0)) as [Ht|Ht]; simpl;
    [left; auto | right; eexists; split; [reflexivity | auto]].
Qed.

Lemma check_all_agree info0 others st :
  Forall (agrees info0) others →
  forM_ (check_dataset info0) others st = (Ok tt, st).
Proof.
  induction 1 as [|i others Hi _ IH]; [done |]. simpl.
  destruct (check_dataset_cases info0 i st) as [[_ Hc]|(msg & Hc & Hm)].
  - by erewrite bind_run by apply Hc.
  - exfalso. destruct Hi as (? & ? & ? & ?).
    destruct Hm as [[_ ?]|[[_ [?|?]]|[_ ?]]]; done.
Qed.

Lemma check_some_disagrees info0 others st :
  Exists (λ i, ¬ agrees info0 i) others →
  ∃ msg i, i ∈ others
    ∧ forM_ (check_dataset info0) others st = (Raise (GeoKitError msg), st)
    ∧ names_mismatch msg info0 i.
Proof.
  induction others as [|i others IH]; intros Hex; [by inv Hex |]. simpl.
  destruct (check_dataset_cases info0 i st) as [[Ha Hc]|(msg & Hc & Hm)].
  - inv Hex; [done |].
    destruct IH as (msg & j & Hj & Hrun & Hm); [done |].
    exists msg, j. split; [by right |]. split; [| done].
    by erewrite bind_run by apply Hc.
  - exists msg, i. split; [by left |]. split; [| done].
    by erewrite bind_raise by apply Hc.
Qed.

(** C2. When every tile can be described and some tile differs from the
    first on spatial reference, pixel width, pixel height or datatype, the
    operation raises a [GeoKitError] whose message names a field on which
    a tile differs ("SRS", "Resolution" for pixel width and height,
    "Datatype"). It raises before the master is created or written: the
    stored rasters are unchanged, and the only accesses made are the
    expansion of the pattern and the reading of the tiles' metadata. *)
Theorem schema_mismatch_before_mutation glob tol master a combiningFunc
    noDataValue st info0 others :
  described (files st) (datasets_of glob a) (info0 :: others) →
  Exists (λ i, ¬ agrees info0 i) others →
  ∃ msg i st',
    combineSimilarRasters glob tol master a combiningFunc noDataValue st
    = (Raise (GeoKitError msg), st')
    ∧ i ∈ others ∧ names_mismatch msg info0 i
    ∧ files st' = files st
    ∧ trace st'
      = trace st ++ glob_events a ++ info_events (datasets_of glob a)
    ∧ Forall (λ e, is_mutation e = false)
             (glob_events a ++ info_events (datasets_of glob a)).
Proof.
  intros Hdesc Hex.
  set (st1 := mkState (files st) (trace st ++ glob_events a
                                  ++ info_events (datasets_of glob a))).
  destruct (check_some_disagrees info0 others st1 Hex)
    as (msg & i & Hi & Hrun & Hm).
  exists msg, i, st1. split; [| repeat split; try done].
  - unfold combineSimilarRasters.
    erewrite bind_run by apply dataset_list_run.
    pose proof (described_length _ _ _ Hdesc) as Hlen. simpl in Hlen.
    destruct (decide (length (datasets_of glob a) = 0)) as [H0|_]; [lia |].
    erewrite bind_run by (apply mapM_rasterInfo_run; exact Hdesc).
    simpl. rewrite <- app_assoc. fold st1.
    by erewrite bind_raise by apply Hrun.
  - apply Forall_app. split.
    + destruct a; simpl; repeat constructor.
    + unfold info_events. apply Forall_forall. intros e He.
      apply list_elem_of_omap in He as (d & _ & Hd).
      destruct d; [injection Hd as <-; reflexivity | discriminate].
Qed.

(** ** What the operation never changes *)

Section invariants.
Context (R : State → State → Prop) `{!PreOrder R}.

Lemma invariant_bind {A B} (m : M A) (k : A → M B) :
  invariant R m → (∀ a, invariant R (k a)) → invariant R (bind m k).
Proof.
  intros Hm Hk st. unfold bind. specialize (Hm st).
  destruct (m st) as [[a|e] st1]; simpl in *; [| done].
  etrans; [exact Hm | apply Hk].
Qed.

Lemma invariant_ret {A} (a : A) : invariant R (ret a).
Proof. intros st. simpl. reflexivity. Qed.

Lemma invariant_raise {A} e : invariant R (@raise A e).
Proof. intros st. simpl. reflexivity. Qed.

Lemma invariant_lift {A} (r : Res A) : invariant R (lift r).
Proof. intros st. simpl. reflexivity. Qed.

Lemma invariant_get_file p : invariant R (get_file p).
Proof. intros st. simpl. reflexivity. Qed.

Lemma invariant_forM_ {A} (f : A → M unit) l :
  (∀ x, invariant R (f x)) → invariant R (forM_ f l).
Proof.
  intros Hf. induction l as [|x l IH]; simpl.
  - apply invariant_ret.
  - apply invariant_bind; auto.
Qed.

End invariants.

Lemma invariant_mapM (R : State → State → Prop) `{!PreOrder R}
    {A B} (f : A → M B) l :
  (∀ x, invariant R (f x)) → invariant R (mapM f l).
Proof.
  intros Hf. induction l as [|x l IH]; simpl.
  - by apply invariant_ret.
  - apply invariant_bind; [done | auto |]. intros y.
    apply invariant_bind; [done | auto |]. intros ys.
    by apply invariant_ret.
Qed.

#[global] Instance keeps_infos_preorder : PreOrder keeps_infos.
Proof.
  split.
  - by intros st p.
  - intros st1 st2 st3 H12 H23 p. by rewrite H23, H12.
Qed.

Lemma emit_keeps_infos e : invariant keeps_infos (emit e).
Proof. by intros st p. Qed.

Lemma WriteArray_keeps_infos p m xoff yoff :
  invariant keeps_infos (WriteArray p m xoff yoff).
Proof.
  intros [fs tr] q. unfold WriteArray, bind, emit, get_file; simpl.
  destruct (fs !! p) as [r|] eqn:Hp; simpl; [| done].
  destruct (write_fits _ _ _ _); simpl; [| done].
  destruct (decide (p = q)) as [<-|Hne].
  - by rewrite lookup_insert_eq, Hp.
  - by rewrite lookup_insert_ne.
Qed.

Ltac keeps :=
  repeat first
    [ apply WriteArray_keeps_infos
    | apply emit_keeps_infos
    | apply (invariant_get_file keeps_infos)
    | apply (invariant_ret keeps_infos)
    | apply (invariant_raise keeps_infos)
    | apply (invariant_lift keeps_infos)
    | apply (invariant_bind keeps_infos); [| intros ?]
    | match goal with |- invariant _ (match ?x with _ => _ end) =>
        destruct x end
    | match goal with |- invariant _ (if ?x then _ else _) =>
        destruct x end ].

Lemma add_dataset_keeps_infos tol master mInfo mExtent f d :
  invariant keeps_infos (add_dataset tol master mInfo mExtent f d).
Proof.
  unfold add_dataset, fetchMatrix, ReadAsArray, FlushCache.
  destruct d as [[p|r] dInfo]; simpl; keeps.
Qed.

Lemma merge_phase_keeps_infos tol master info0 f tiles :
  invariant keeps_infos (merge_phase tol master info0 f tiles).
Proof.
  unfold merge_phase, gdal_Open, rasterInfo, check_master, FlushCache,
    calculateStats.
  keeps; try (apply (invariant_forM_ keeps_infos); intros ?;
              apply add_dataset_keeps_infos).
Qed.

(** ** Creating the master *)

Lemma maybe_create_absent master noDataValue info0 infoSet b fs tr :
  fs !! master = None →
  let chosen := choose_noData noDataValue infoSet in
  let mr := new_raster b (dtype info0) (dx info0) (dy info0) chosen
                       (srs info0) chosen in
  maybe_create master noDataValue info0 infoSet b (mkState fs tr)
  = (Ok tt, mkState (<[master := mr]> fs)
                    (tr ++ [EvIsFile master;
                            EvCreate master (info mr) chosen])).
Proof.
  intros Hm. simpl.
  unfold maybe_create, isfile, createRaster, bind, emit, get_file, put_file,
    ret; simpl.
  rewrite Hm. simpl. by rewrite <- app_assoc.
Qed.

Lemma maybe_create_present master noDataValue info0 infoSet b fs tr :
  is_Some (fs !! master) →
  maybe_create master noDataValue info0 infoSet b (mkState fs tr)
  = (Ok tt, mkState fs (tr ++ [EvIsFile master])).
Proof.
  intros Hm.
  unfold maybe_create, isfile, bind, emit, get_file, ret; simpl.
  by rewrite bool_decide_eq_true_2.
Qed.

Lemma new_raster_info b dt px py nd s fill :
  bounds (info (new_raster b dt px py nd s fill)) = b
  ∧ noData (info (new_raster b dt px py nd s fill)) = nd
  ∧ srs (info (new_raster b dt px py nd s fill)) = s
  ∧ dx (info (new_raster b dt px py nd s fill)) = px
  ∧ dy (info (new_raster b dt px py nd s fill)) = py
  ∧ dtype (info (new_raster b dt px py nd s fill)) = dt
  ∧ yAtTop (info (new_raster b dt px py nd s fill)) = true.
Proof. by destruct b as [[[x0 y0] x1] y1]. Qed.


(** ** The run up to the merge, for tiles that agree *)

Lemma combine_valid_run glob tol master a f nd st info0 others :
  described (files st) (datasets_of glob a) (info0 :: others) →
  Forall (agrees info0) others →
  combineSimilarRasters glob tol master a f nd st
  = (maybe_create master nd info0 (info0 :: others)
                  (data_bounds info0 others);;
     merge_phase tol master info0 f
                 (zip (datasets_of glob a) (info0 :: others)))
      (mkState (files st)
               (trace st ++ glob_events a
                ++ info_events (datasets_of glob a))).
Proof.
  intros Hdesc Hag.
  unfold combineSimilarRasters.
  erewrite bind_run by apply dataset_list_run.
  pose proof (described_length _ _ _ Hdesc) as Hlen. simpl in Hlen.
  destruct (decide (length (datasets_of glob a) = 0)) as [H0|_]; [lia |].
  erewrite bind_run by (apply mapM_rasterInfo_run; exact Hdesc).
  rewrite <- app_assoc.
  erewrite bind_run by (by apply check_all_agree).
  reflexivity.
Qed.

(** ** The bounding box of the tiles *)

Lemma min_from_spec r : ∀ x,
  (min_from x r = x ∨ min_from x r ∈ r)
  ∧ (min_from x r <= x)%Q ∧ ∀ y, y ∈ r → (min_from x r <= y)%Q.
Proof.
  induction r as [|b r IH]; intros x.
  - split; [by left |]. split; [apply Qle_refl |]. by intros y ?%elem_of_nil.
  - unfold min_from. simpl. fold (min_from (if Qle_bool x b then x else b) r).
    destruct (IH (if Qle_bool x b then x else b)) as (Hin & Hle & Hall).
    assert (Hx : ((if Qle_bool x b then x else b) <= x)%Q
                 ∧ ((if Qle_bool x b then x else b) <= b)%Q).
    { destruct (Qle_bool x b) eqn:Hxb.
      - apply Qle_bool_iff in Hxb. split; [apply Qle_refl | done].
      - split; [| apply Qle_refl].
        apply Qlt_le_weak, Qnot_le_lt. intros Hc.
        apply Qle_bool_iff in Hc. congruence. }
    destruct Hx as [Hx Hb]. split; [| split].
    + destruct Hin as [->|Hin]; [| right; by right].
      destruct (Qle_bool x b); [by left | right; by left].
    + by eapply Qle_trans.
    + intros y [->|Hy]%elem_of_cons; [by eapply Qle_trans | auto].
Qed.

Lemma max_from_spec r : ∀ x,
  (max_from x r = x ∨ max_from x r ∈ r)
  ∧ (x <= max_from x r)%Q ∧ ∀ y, y ∈ r → (y <= max_from x r)%Q.
Proof.
  induction r as [|b r IH]; intros x.
  - split; [by left |]. split; [apply Qle_refl |]. by intros y ?%elem_of_nil.
  - unfold max_from. simpl. fold (max_from (if Qle_bool b x then x else b) r).
    destruct (IH (if Qle_bool b x then x else b)) as (Hin & Hle & Hall).
    assert (Hx : (x <= (if Qle_bool b x then x else b))%Q
                 ∧ (b <= (if Qle_bool b x then x else b))%Q).
    { destruct (Qle_bool b x) eqn:Hxb.
      - apply Qle_bool_iff in Hxb. split; [apply Qle_refl | done].
      - split; [| apply Qle_refl].
        apply Qlt_le_weak, Qnot_le_lt. intros Hc.
        apply Qle_bool_iff in Hc. congruence. }
    destruct Hx as [Hx Hb]. split; [| split].
    + destruct Hin as [->|Hin]; [| right; by right].
      destruct (Qle_bool b x); [by left | right; by left].
    + by eapply Qle_trans.
    + intros y [->|Hy]%elem_of_cons; [by eapply Qle_trans | auto].
Qed.

Lemma min_from_is_min x r : is_min (x :: r) (min_from x r).
Proof.
  destruct (min_from_spec r x) as (Hin & Hle & Hall). split.
  - destruct Hin as [->|Hin]; [by left | by right].
  - intros y [->|Hy]%elem_of_cons; auto.
Qed.

Lemma max_from_is_max x r : is_max (x :: r) (max_from x r).
Proof.
  destruct (max_from_spec r x) as (Hin & Hle & Hall). split.
  - destruct Hin as [->|Hin]; [by left | by right].
  - intros y [->|Hy]%elem_of_cons; auto.
Qed.

Lemma data_bounds_union info0 others :
  union_bbox (info0 :: others) (data_bounds info0 others).
Proof.
  unfold union_bbox, data_bounds. simpl.
  auto using min_from_is_min, max_from_is_max.
Qed.

(** C4. When the tiles can be described and agree on SRS, dx, dy and
    datatype, and no master is stored yet, the operation stores a master
    whose bounding box is the union of the tiles' bounding boxes: its xMin
    and yMin are the least xMin and yMin of the tiles, its xMax and yMax
    the greatest xMax and yMax. This holds however the merge that follows
    ends. *)
Theorem new_master_bounds_union glob tol master a combiningFunc noDataValue
    st info0 others :
  files st !! master = None →
  described (files st) (datasets_of glob a) (info0 :: others) →
  Forall (agrees info0) others →
  ∃ mr,
    files (combineSimilarRasters glob tol master a combiningFunc
                                 noDataValue st).2 !! master = Some mr
    ∧ bounds (info mr) = data_bounds info0 others
    ∧ union_bbox (info0 :: others) (bounds (info mr)).
Proof.
  intros Habs Hdesc Hag.
  rewrite (combine_valid_run _ _ _ _ _ _ _ _ _ Hdesc Hag).
  unfold bind at 1. rewrite maybe_create_absent by done.
  match goal with |- context [merge_phase ?t ?m ?i ?f ?l ?s] =>
    pose proof (merge_phase_keeps_infos t m i f l s master) as Hk;
    destruct (merge_phase t m i f l s) as [res st'] end.
  simpl in Hk. rewrite lookup_insert_eq in Hk. simpl in *.
  destruct (files st' !! master) as [mr|]; [| discriminate].
  exists mr. injection Hk as Hk.
  assert (Hb : bounds (info mr) = data_bounds info0 others).
  { unfold bounds. by rewrite Hk. }
  split; [done |]. split; [done |].
  rewrite Hb. apply data_bounds_union.
Qed.

(** ** The nodata value of a new master *)

Lemma choose_noData_override v infos : choose_noData (Some v) infos = Some v.
Proof. done. Qed.

Lemma py_set_nil l : py_set l = [] → l = [].
Proof.
  induction l as [|x r IH]; [done |]. simpl.
  destruct (bool_decide_reflect (x ≠ Some NaN ∧ x ∈ r)) as [[_ Hx]|_];
    [| done].
  intros Hr. rewrite (IH Hr) in Hx. by apply elem_of_nil in Hx.
Qed.

(** A list of equal values that are not NaN makes a set of one element. *)
Lemma py_set_common x l :
  l ≠ [] → x ≠ Some NaN → (∀ y, y ∈ l → y = x) → py_set l = [x].
Proof.
  intros Hne Hx. induction l as [|y r IH]; [done |]. intros Hall.
  assert (Hy : y = x) by (apply Hall; by left). subst y. simpl.
  destruct r as [|z r'].
  - rewrite bool_decide_eq_false_2; [done |].
    intros [_ Hin]. by apply elem_of_nil in Hin.
  - assert (Hz : z = x) by (apply Hall; right; by left). subst z.
    rewrite bool_decide_eq_true_2 by (split; [done | by left]).
    apply IH; [done |]. intros y Hy. apply Hall. by right.
Qed.

(** A set of one element comes from a list of values equal to it, and
    from a list of length one when the element is NaN. *)
Lemma py_set_one l v :
  py_set l = [v] →
  (∀ y, y ∈ l → y = v) ∧ (v = Some NaN → l = [v]).
Proof.
  revert v. induction l as [|x r IH]; [done |]. intros v. simpl.
  destruct (bool_decide_reflect (x ≠ Some NaN ∧ x ∈ r)) as [[Hx Hin]|_].
  - intros Hr. destruct (IH v Hr) as [Hall Hnan].
    assert (Hxv : x = v) by (by apply Hall). subst x. split.
    + intros y Hy. apply elem_of_cons in Hy as [->|Hy]; [done | by apply Hall].
    + intros Hv. by destruct Hx.
  - intros [= -> Hr]. apply py_set_nil in Hr as ->. split; [| done].
    intros y Hy. apply elem_of_cons in Hy as [->|Hy]; [done |].
    by apply elem_of_nil in Hy.
Qed.

Lemma choose_noData_common x infos :
  infos ≠ [] → x ≠ Some NaN → (∀ i, i ∈ infos → noData i = x) →
  choose_noData None infos = x.
Proof.
  intros Hne Hx Hall. unfold choose_noData.
  rewrite (py_set_common x).
  - done.
  - by destruct infos.
  - done.
  - intros y Hy. apply list_elem_of_fmap in Hy as (i & -> & Hi). auto.
Qed.

Lemma choose_noData_single i : choose_noData None [i] = noData i.
Proof.
  unfold choose_noData. simpl.
  rewrite bool_decide_eq_false_2; [done |].
  intros [_ Hin]. by apply elem_of_nil in Hin.
Qed.

Lemma choose_noData_mixed (k l : nat) i j infos :
  k ≠ l → infos !! k = Some i → infos !! l = Some j →
  noData i ≠ noData j ∨ noData i = Some NaN →
  choose_noData None infos = None.
Proof.
  intros Hkl Hi Hj Hne. unfold choose_noData.
  destruct (decide _) as [Hsize|]; [| done]. exfalso.
  destruct (py_set (noData <$> infos)) as [|v [|w r]] eqn:Hset;
    [done | | done].
  destruct (py_set_one _ _ Hset) as [Hall Hnan].
  assert (Hvi : noData i = v).
  { apply Hall, list_elem_of_fmap. exists i. split; [done |].
    by eapply list_elem_of_lookup_2. }
  assert (Hvj : noData j = v).
  { apply Hall, list_elem_of_fmap. exists j. split; [done |].
    by eapply list_elem_of_lookup_2. }
  destruct Hne as [Hne|Hn]; [congruence |].
  assert (Hlen : length (noData <$> infos) = 1)
    by (rewrite Hnan by congruence; done).
  rewrite length_fmap in Hlen.
  apply lookup_lt_Some in Hi, Hj. lia.
Qed.


(** ** Cells of windows *)

Lemma mget_write_window b x y W r c :
  mget (write_window b x y W) r c
  = (λ v, if (y <=? r)%nat && (x <=? c)%nat
          then default v (mget W (r - y) (c - x)) else v) <$> mget b r c.
Proof.
  unfold mget, write_window. rewrite list_lookup_imap.
  destruct (b !! r) as [row|]; simpl; [| done].
  by rewrite list_lookup_imap.
Qed.

Lemma mget_read_window b x y w h r c :
  mget (read_window b x y w h) r c
  = if decide (r < Z.to_nat h ∧ c < Z.to_nat w)%nat
    then mget b (Z.to_nat y + r) (Z.to_nat x + c) else None.
Proof.
  unfold mget, read_window.
  rewrite list_lookup_fmap, lookup_take, lookup_drop.
  destruct (decide (r < Z.to_nat h)%nat) as [Hr|Hr].
  - destruct (b !! (Z.to_nat y + r)%nat) as [row|]; simpl.
    + rewrite lookup_take, lookup_drop.
      repeat case_decide; first [done | exfalso; lia].
    + by case_decide.
  - simpl. case_decide; first [done | exfalso; lia].
Qed.

Lemma mget_Some_lt (m : Matrix) r c v :
  mget m r c = Some v →
  ∃ row, m !! r = Some row ∧ row !! c = Some v
         ∧ (r < length m)%nat ∧ (c < length row)%nat.
Proof.
  unfold mget. intros (row & Hrow & Hv)%bind_Some.
  exists row. repeat split; try done.
  - by eapply lookup_lt_Some.
  - by eapply lookup_lt_Some.
Qed.

(** Where [m] fits, every cell of [m] lies over a cell of the band. *)
Lemma write_fits_cell b x y (m : Matrix) r c v :
  write_fits b x y m = true → mget m r c = Some v →
  (0 <= x)%Z ∧ (0 <= y)%Z
  ∧ is_Some (mget b (Z.to_nat y + r) (Z.to_nat x + c)).
Proof.
  unfold write_fits. intros Hfit Hv.
  apply andb_prop in Hfit as [Hfit Hrows].
  apply andb_prop in Hfit as [Hfit Hlen].
  apply andb_prop in Hfit as [Hx Hy].
  apply Z.leb_le in Hx, Hy, Hlen.
  apply mget_Some_lt in Hv as (mrow & Hmrow & _ & Hr & Hc).
  split; [done |]. split; [done |].
  assert (Hbr : (Z.to_nat y + r < length b)%nat) by lia.
  apply lookup_lt_is_Some in Hbr as [row Hrow].
  unfold mget. rewrite Hrow. simpl.
  apply lookup_lt_is_Some.
  rewrite forallb_forall in Hrows.
  assert (Hin : In mrow m).
  { apply list_elem_of_In, list_elem_of_lookup. eauto. }
  specialize (Hrows _ Hin). rewrite forallb_forall in Hrows.
  assert (Hin' : In row b).
  { apply list_elem_of_In, list_elem_of_lookup. eauto. }
  specialize (Hrows _ Hin'). apply Z.leb_le in Hrows. lia.
Qed.

(** After a write, the cells under the matrix hold its values ... *)
Lemma mget_written b x y (m : Matrix) r c v :
  write_fits b x y m = true → mget m r c = Some v →
  mget (write_window b (Z.to_nat x) (Z.to_nat y) m)
       (Z.to_nat y + r) (Z.to_nat x + c) = Some v.
Proof.
  intros Hfit Hv.
  destruct (write_fits_cell _ _ _ _ _ _ _ Hfit Hv) as (_ & _ & [old Hold]).
  rewrite mget_write_window, Hold. simpl.
  replace (Z.to_nat y <=? Z.to_nat y + r)%nat with true
    by (symmetry; apply Nat.leb_le; lia).
  replace (Z.to_nat x <=? Z.to_nat x + c)%nat with true
    by (symmetry; apply Nat.leb_le; lia).
  simpl.
  replace (Z.to_nat y + r - Z.to_nat y)%nat with r by lia.
  replace (Z.to_nat x + c - Z.to_nat x)%nat with c by lia.
  by rewrite Hv.
Qed.

(** ... and the other cells hold what they held. *)
Lemma mget_not_written b x y (m : Matrix) r c :
  ((r < y)%nat ∨ (c < x)%nat ∨ mget m (r - y) (c - x) = None) →
  mget (write_window b x y m) r c = mget b r c.
Proof.
  intros Hout. rewrite mget_write_window.
  destruct (mget b r c) as [v|]; simpl; [| done].
  destruct (Nat.leb_spec y r), (Nat.leb_spec x c); simpl; try done.
  destruct Hout as [?|[?| ->]]; [lia | lia | done].
Qed.

(** Matrices of one shape have cells at the same places. *)
Lemma same_shape_cells (A B : Matrix) r c :
  length <$> A = length <$> B →
  is_Some (mget A r c) ↔ is_Some (mget B r c).
Proof.
  intros Hshape.
  assert (Hr : length <$> A !! r = length <$> B !! r).
  { by rewrite <- !list_lookup_fmap, Hshape. }
  unfold mget.
  destruct (A !! r) as [ra|], (B !! r) as [rb|]; simpl in *; try done.
  injection Hr as Hr. by rewrite !lookup_lt_is_Some, Hr.
Qed.

Lemma mget_zip_with (f : Pixel → Pixel → Pixel) (A B : Matrix) r c :
  mget (zip_with (zip_with f) A B) r c
  = (a ← mget A r c; b ← mget B r c; Some (f a b)).
Proof.
  unfold mget. rewrite lookup_zip_with.
  destruct (A !! r) as [ra|]; simpl; [| done].
  destruct (B !! r) as [rb|]; simpl.
  - rewrite lookup_zip_with. by destruct (ra !! c).
  - by destruct (ra !! c).
Qed.

(** For a nodata value that is a number, a value compares unequal to it
    when it is another value, NaN included. *)
Lemma pixel_ne_number d nd : nd ≠ NaN → pixel_ne d nd = bool_decide (d ≠ nd).
Proof.
  intros Hnd. destruct d as [a|], nd as [b|]; simpl; try done.
  destruct (Z.eqb_spec a b) as [->|Hab]; simpl.
  - by rewrite bool_decide_eq_false_2 by (by intros ?).
  - rewrite bool_decide_eq_true_2; [done | congruence].
Qed.

(** NaN as nodata value: every value compares unequal to it. *)
Lemma pixel_ne_NaN d : pixel_ne d NaN = true.
Proof. by destruct d. Qed.

(** The cells of the matrix the sparse overlay writes. *)
Lemma mask_assign_cells mMatrix dMatrix nd W r c :
  mask_assign mMatrix dMatrix nd = Ok W →
  length <$> mMatrix = length <$> dMatrix
  ∧ mget W r c
    = (m ← mget mMatrix r c; d ← mget dMatrix r c; Some (overlay nd m d)).
Proof.
  unfold mask_assign. destruct (decide _) as [Hshape|]; [| done].
  intros [= <-]. split; [done |]. apply mget_zip_with.
Qed.

(** ** One pass of the loop *)

Lemma fetchMatrix_inv d st m st1 :
  fetchMatrix d st = (Ok m, st1) →
  ∃ tile, dataset_raster (files st) d = Some tile ∧ m = band tile
          ∧ st1 = mkState (files st) (trace st ++ fetch_events d).
Proof.
  destruct st as [fs tr], d as [p|r]; simpl.
  - unfold bind, emit, get_file; simpl.
    destruct (fs !! p) as [tile|]; [| done].
    intros [= <- <-]. eauto.
  - intros [= <- <-]. exists r. by rewrite app_nil_r.
Qed.

Lemma fetchMatrix_run d fs tr tile :
  dataset_raster fs d = Some tile →
  fetchMatrix d (mkState fs tr)
  = (Ok (band tile), mkState fs (tr ++ fetch_events d)).
Proof.
  destruct d as [p|r]; simpl.
  - unfold bind, emit, get_file; simpl. by intros ->.
  - intros [= ->]. unfold ret. by rewrite app_nil_r.
Qed.

Lemma lift_inv {A} (r : Res A) st a st1 :
  lift r st = (Ok a, st1) → r = Ok a ∧ st1 = st.
Proof. by intros [= -> ->]. Qed.

Lemma ReadAsArray_inv p xoff yoff w h st m st1 :
  ReadAsArray p xoff yoff w h st = (Ok m, st1) →
  ∃ mr, files st !! p = Some mr
        ∧ window_fits (band mr) xoff yoff w h = true
        ∧ m = read_window (band mr) xoff yoff w h
        ∧ st1 = mkState (files st)
                        (trace st ++ [EvRead p (mkWin xoff yoff w h)]).
Proof.
  destruct st as [fs tr]. unfold ReadAsArray, bind, emit, get_file; simpl.
  destruct (fs !! p) as [mr|]; [| done].
  destruct (window_fits _ _ _ _ _) eqn:Hfit; [| done].
  intros [= <- <-]. eauto.
Qed.

Lemma ReadAsArray_run p xoff yoff w h fs tr mr :
  fs !! p = Some mr → window_fits (band mr) xoff yoff w h = true →
  ReadAsArray p xoff yoff w h (mkState fs tr)
  = (Ok (read_window (band mr) xoff yoff w h),
     mkState fs (tr ++ [EvRead p (mkWin xoff yoff w h)])).
Proof.
  intros Hp Hfit. unfold ReadAsArray, bind, emit, get_file; simpl.
  by rewrite Hp, Hfit.
Qed.

Lemma WriteArray_inv p m xoff yoff st st1 :
  WriteArray p m xoff yoff st = (Ok tt, st1) →
  ∃ mr, files st !! p = Some mr
        ∧ write_fits (band mr) xoff yoff m = true
        ∧ st1 = mkState
                  (<[p := mkRaster (info mr)
                            (write_window (band mr) (Z.to_nat xoff)
                                          (Z.to_nat yoff) m)]> (files st))
                  (trace st ++ [EvWrite p xoff yoff m]).
Proof.
  destruct st as [fs tr]. unfold WriteArray, bind, emit, get_file; simpl.
  destruct (fs !! p) as [mr|]; [| done].
  destruct (write_fits _ _ _ _) eqn:Hfit; [| done].
  intros [= <-]. eauto.
Qed.

Lemma WriteArray_run p m xoff yoff fs tr mr :
  fs !! p = Some mr → write_fits (band mr) xoff yoff m = true →
  WriteArray p m xoff yoff (mkState fs tr)
  = (Ok tt,
     mkState (<[p := mkRaster (info mr)
                       (write_window (band mr) (Z.to_nat xoff)
                                     (Z.to_nat yoff) m)]> fs)
             (tr ++ [EvWrite p xoff yoff m])).
Proof.
  intros Hp Hfit. unfold WriteArray, bind, emit, get_file; simpl.
  by rewrite Hp, Hfit.
Qed.

(** What a pass that succeeded did. *)
Lemma add_dataset_inv tol master mInfo mExtent f d dInfo st st' :
  add_dataset tol master mInfo mExtent f (d, dInfo) st = (Ok tt, st') →
  ∃ tile mr idx W,
    dataset_raster (files st) d = Some tile
    ∧ files st !! master = Some mr
    ∧ findWithin tol mExtent (mkExtent (bounds dInfo) (srs dInfo))
                 (dx mInfo, dy mInfo) (yAtTop mInfo) = Ok idx
    ∧ window_fits (band mr) (xStart idx) (yStart idx) (xWin idx) (yWin idx)
      = true
    ∧ writeMatrix_of f
        (read_window (band mr) (xStart idx) (yStart idx) (xWin idx)
                     (yWin idx))
        mInfo (if yAtTop dInfo then band tile else reverse (band tile)) dInfo
      = Ok W
    ∧ write_fits (band mr) (xStart idx) (yStart idx) W = true
    ∧ files st'
      = <[master := mkRaster (info mr)
                      (write_window (band mr) (Z.to_nat (xStart idx))
                                    (Z.to_nat (yStart idx)) W)]> (files st)
    ∧ trace st'
      = trace st ++ fetch_events d
        ++ [EvRead master idx; EvWrite master (xStart idx) (yStart idx) W;
            EvFlush master].
Proof.
  unfold add_dataset. simpl. intros H.
  apply bind_inv in H as (dMatrix0 & s1 & Hfetch & H).
  apply bind_inv in H as (idx & s2 & Hidx & H).
  apply bind_inv in H as (mMatrix & s3 & Hread & H).
  apply bind_inv in H as (W & s4 & HW & H).
  apply bind_inv in H as ([] & s5 & Hwrite & H).
  apply fetchMatrix_inv in Hfetch as (tile & Htile & -> & ->).
  apply lift_inv in Hidx as [Hidx ->].
  apply ReadAsArray_inv in Hread as (mr & Hmr & Hfit & -> & ->).
  apply lift_inv in HW as [HW ->].
  apply WriteArray_inv in Hwrite as (mr' & Hmr' & Hwfit & ->).
  simpl in *. rewrite Hmr in Hmr'. injection Hmr' as <-.
  injection H as <-.
  exists tile, mr, idx, W. simpl.
  repeat split; try done.
  destruct idx. simpl. by rewrite <- !app_assoc.
Qed.

(** The conditions under which a pass succeeds, and its effect. *)
Lemma add_dataset_run tol master mInfo mExtent f d dInfo fs tr tile mr idx W :
  dataset_raster fs d = Some tile →
  fs !! master = Some mr →
  findWithin tol mExtent (mkExtent (bounds dInfo) (srs dInfo))
             (dx mInfo, dy mInfo) (yAtTop mInfo) = Ok idx →
  window_fits (band mr) (xStart idx) (yStart idx) (xWin idx) (yWin idx)
  = true →
  writeMatrix_of f
    (read_window (band mr) (xStart idx) (yStart idx) (xWin idx) (yWin idx))
    mInfo (if yAtTop dInfo then band tile else reverse (band tile)) dInfo
  = Ok W →
  write_fits (band mr) (xStart idx) (yStart idx) W = true →
  add_dataset tol master mInfo mExtent f (d, dInfo) (mkState fs tr)
  = (Ok tt,
     mkState
       (<[master := mkRaster (info mr)
                     (write_window (band mr) (Z.to_nat (xStart idx))
                                   (Z.to_nat (yStart idx)) W)]> fs)
       (tr ++ fetch_events d
        ++ [EvRead master idx; EvWrite master (xStart idx) (yStart idx) W;
            EvFlush master])).
Proof.
  intros Htile Hmr Hidx Hfit HW Hwfit.
  unfold add_dataset. simpl.
  erewrite bind_run by (by apply fetchMatrix_run).
  erewrite bind_run by (unfold lift; by rewrite Hidx).
  erewrite bind_run by (by apply ReadAsArray_run).
  erewrite bind_run by (unfold lift; by rewrite HW).
  erewrite bind_run by (by apply WriteArray_run).
  unfold FlushCache, emit. simpl.
  destruct idx. simpl. by rewrite <- !app_assoc.
Qed.


(** ** The merge phase *)

Lemma agrees_refl i : agrees i i.
Proof. repeat split; reflexivity. Qed.

Lemma check_master_cases info0 mInfo st :
  (agrees info0 mInfo ∧ check_master info0 mInfo st = (Ok tt, st))
  ∨ (¬ agrees info0 mInfo
     ∧ ∃ msg, check_master info0 mInfo st = (Raise (GeoKitError msg), st)).
Proof.
  unfold check_master, agrees, IsSame.
  destruct (bool_decide_reflect (srs mInfo = srs info0)) as [Hs|Hs]; simpl;
    [| right; split; [tauto | eauto]].
  destruct (Qeq_bool (dx mInfo) (dx info0)) eqn:Hx; simpl;
    [| right; split; [| eauto];
       intros (_ & Hq & _); by apply Qeq_bool_neq in Hx].
  destruct (Qeq_bool (dy mInfo) (dy info0)) eqn:Hy; simpl;
    [| right; split; [| eauto];
       intros (_ & _ & Hq & _); by apply Qeq_bool_neq in Hy].
  apply Qeq_bool_iff in Hx, Hy.
  destruct (bool_decide_reflect (dtype mInfo = dtype info0)) as [Ht|Ht]; simpl;
    [left; auto | right; split; [tauto | eauto]].
Qed.

Lemma gdal_Open_run p fs tr mr :
  fs !! p = Some mr →
  gdal_Open p (mkState fs tr) = (Ok p, mkState fs (tr ++ [EvOpen p])).
Proof. intros Hp. unfold gdal_Open, bind, emit, get_file; simpl. by rewrite Hp. Qed.

Lemma gdal_Open_inv p st q st1 :
  gdal_Open p st = (Ok q, st1) →
  q = p ∧ is_Some (files st !! p) ∧ files st1 = files st.
Proof.
  destruct st as [fs tr]. unfold gdal_Open, bind, emit, get_file; simpl.
  destruct (fs !! p) as [mr|]; [| done]. intros [= <- <-]. eauto.
Qed.

Lemma rasterInfo_inv d st i st1 :
  rasterInfo d st = (Ok i, st1) →
  info <$> dataset_raster (files st) d = Some i ∧ files st1 = files st.
Proof.
  destruct st as [fs tr], d as [p|r]; simpl.
  - unfold bind, emit, get_file; simpl.
    destruct (fs !! p) as [mr|]; [| done]. by intros [= <- <-].
  - by intros [= <- <-].
Qed.

(** With a master that agrees with the first tile, the merge phase is the
    loop followed by the final flush and statistics. *)
Lemma merge_phase_start tol master info0 f tiles fs tr mr :
  fs !! master = Some mr → agrees info0 (info mr) →
  merge_phase tol master info0 f tiles (mkState fs tr)
  = (forM_ (add_dataset tol master (info mr)
              (mkExtent (bounds (info mr)) (srs (info mr))) f) tiles;;
     FlushCache master;; calculateStats master)
      (mkState fs (tr ++ [EvOpen master; EvInfo master])).
Proof.
  intros Hmr Hag. unfold merge_phase.
  erewrite bind_run by (by eapply gdal_Open_run).
  erewrite bind_run
    by (apply (rasterInfo_run _ (DsPath master)); simpl; by rewrite Hmr).
  simpl. rewrite <- app_assoc. simpl.
  destruct (check_master_cases info0 (info mr)
              (mkState fs (tr ++ [EvOpen master; EvInfo master])))
    as [[_ Hc]|[Hn _]]; [| done].
  by erewrite bind_run by exact Hc.
Qed.

(** The merge phase succeeds only on such a master. *)
Lemma merge_phase_ok_inv tol master info0 f tiles st st' :
  merge_phase tol master info0 f tiles st = (Ok tt, st') →
  ∃ mr, files st !! master = Some mr ∧ agrees info0 (info mr).
Proof.
  unfold merge_phase. intros H.
  apply bind_inv in H as (q & s1 & Hopen & H).
  apply gdal_Open_inv in Hopen as (-> & _ & Hf1).
  apply bind_inv in H as (mInfo & s2 & Hinfo & H).
  apply rasterInfo_inv in Hinfo as [Hinfo Hf2]. simpl in Hinfo.
  rewrite Hf1 in Hinfo.
  destruct (files st !! master) as [mr|]; [| done].
  injection Hinfo as <-.
  apply bind_inv in H as ([] & s3 & Hcheck & _).
  exists mr. split; [done |].
  destruct (check_master_cases info0 (info mr) s2)
    as [[Hag _]|[_ [msg Hc]]]; [done | congruence].
Qed.

(** The end of the merge phase changes no raster. *)
Lemma loop_then_finish_inv (loop : M unit) master st st' :
  (loop;; FlushCache master;; calculateStats master) st = (Ok tt, st') →
  ∃ sL, loop st = (Ok tt, sL) ∧ files st' = files sL.
Proof.
  intros H. apply bind_inv in H as ([] & sL & Hloop & H).
  exists sL. split; [done |].
  unfold FlushCache, calculateStats, bind, emit in H. simpl in H.
  by injection H as <-.
Qed.

Lemma loop_then_finish_run (loop : M unit) master st sL :
  loop st = (Ok tt, sL) →
  ∃ st', (loop;; FlushCache master;; calculateStats master) st = (Ok tt, st')
         ∧ files st' = files sL.
Proof.
  intros Hloop. erewrite bind_run by exact Hloop.
  unfold FlushCache, calculateStats, bind, emit. simpl. eauto.
Qed.

(** [maybe_create] never fails, and leaves a master in place. *)
Lemma maybe_create_run master noDataValue info0 infoSet b fs tr :
  let chosen := choose_noData noDataValue infoSet in
  let mr0 := new_raster b (dtype info0) (dx info0) (dy info0) chosen
                        (srs info0) chosen in
  ∃ tr', maybe_create master noDataValue info0 infoSet b (mkState fs tr)
         = (Ok tt, mkState (with_master master mr0 fs) tr').
Proof.
  simpl. unfold with_master.
  destruct (fs !! master) as [mr|] eqn:Hmr.
  - rewrite maybe_create_present by (by rewrite Hmr). eauto.
  - rewrite maybe_create_absent by done. eauto.
Qed.

Lemma with_master_lookup master mr0 fs :
  with_master master mr0 fs !! master = Some (default mr0 (fs !! master)).
Proof.
  unfold with_master. destruct (fs !! master) as [mr|] eqn:Hmr; simpl.
  - done.
  - apply lookup_insert_eq.
Qed.


(** ** Shapes *)

Lemma matrix_ext (A B : Matrix) :
  length <$> A = length <$> B →
  (∀ r c, mget A r c = mget B r c) → A = B.
Proof.
  intros Hshape Hcells. apply list_eq. intros r.
  assert (Hr : length <$> A !! r = length <$> B !! r).
  { by rewrite <- !list_lookup_fmap, Hshape. }
  pose proof (Hcells r) as Hc. unfold mget in Hc.
  destruct (A !! r) as [ra|], (B !! r) as [rb|]; simpl in *; try done.
  f_equal. apply list_eq. exact Hc.
Qed.

Lemma write_window_shape b x y W :
  length <$> write_window b x y W = length <$> b.
Proof.
  apply list_eq. intros r. unfold write_window.
  rewrite !list_lookup_fmap, list_lookup_imap.
  destruct (b !! r) as [row|]; simpl; [| done].
  by rewrite length_imap.
Qed.

Lemma forallb_shape (g : nat → bool) (b : Matrix) :
  forallb (λ row, g (length row)) b = forallb g (length <$> b).
Proof. induction b as [|row b IH]; simpl; [done | by rewrite IH]. Qed.

Lemma window_fits_shape b b' x y w h :
  length <$> b = length <$> b' →
  window_fits b x y w h = window_fits b' x y w h.
Proof.
  intros Hshape. unfold window_fits.
  assert (Hlen : length b = length b').
  { by rewrite <- (length_fmap length b), Hshape, length_fmap. }
  rewrite Hlen. f_equal.
  rewrite (forallb_shape (λ n, (x + w <=? Z.of_nat n)%Z) b).
  rewrite (forallb_shape (λ n, (x + w <=? Z.of_nat n)%Z) b').
  by rewrite Hshape.
Qed.

Lemma write_fits_shape b b' x y (m : Matrix) :
  length <$> b = length <$> b' →
  write_fits b x y m = write_fits b' x y m.
Proof.
  intros Hshape. unfold write_fits.
  assert (Hlen : length b = length b').
  { by rewrite <- (length_fmap length b), Hshape, length_fmap. }
  rewrite Hlen. f_equal.
  induction m as [|mrow m IH]; simpl; [done |]. rewrite IH. f_equal.
  rewrite (forallb_shape (λ n, (x + Z.of_nat (length mrow) <=? Z.of_nat n)%Z) b).
  rewrite (forallb_shape (λ n, (x + Z.of_nat (length mrow) <=? Z.of_nat n)%Z) b').
  by rewrite Hshape.
Qed.

Lemma read_window_shape b b' x y w h :
  length <$> b = length <$> b' →
  length <$> read_window b x y w h = length <$> read_window b' x y w h.
Proof.
  intros Hshape. apply list_eq. intros r. unfold read_window.
  rewrite !list_lookup_fmap, !lookup_take, !lookup_drop.
  assert (Hr : length <$> b !! (Z.to_nat y + r)%nat
               = length <$> b' !! (Z.to_nat y + r)%nat).
  { by rewrite <- !list_lookup_fmap, Hshape. }
  case_decide; [| done].
  destruct (b !! _) as [row|], (b' !! _) as [row'|]; simpl in *; try done.
  injection Hr as Hr. by rewrite !length_take, !length_drop, Hr.
Qed.

Lemma zip_with_shape (f : Pixel → Pixel → Pixel) (A B : Matrix) :
  length <$> A = length <$> B →
  length <$> zip_with (zip_with f) A B = length <$> A.
Proof.
  intros Hshape. apply list_eq. intros r.
  assert (Hr : length <$> A !! r = length <$> B !! r).
  { by rewrite <- !list_lookup_fmap, Hshape. }
  rewrite !list_lookup_fmap, lookup_zip_with.
  destruct (A !! r) as [ra|], (B !! r) as [rb|]; simpl in *; try done.
  injection Hr as Hr. rewrite length_zip_with. f_equal. lia.
Qed.

Lemma mask_assign_shape mMatrix dMatrix nd W :
  mask_assign mMatrix dMatrix nd = Ok W →
  length <$> W = length <$> mMatrix ∧ length <$> W = length <$> dMatrix.
Proof.
  unfold mask_assign. destruct (decide _) as [Hshape|]; [| done].
  intros [= <-]. rewrite zip_with_shape by done. by rewrite Hshape.
Qed.

(** Overlaying the same tile on the result of an overlay changes
    nothing. *)
Lemma overlay_idemp nd m d : overlay nd (overlay nd m d) d = overlay nd m d.
Proof. unfold overlay. by destruct (pixel_ne d nd). Qed.

Lemma mask_assign_idemp mMatrix dMatrix nd W :
  mask_assign mMatrix dMatrix nd = Ok W →
  mask_assign W dMatrix nd = Ok W.
Proof.
  intros HW.
  destruct (mask_assign_shape _ _ _ _ HW) as [HWm HWd].
  unfold mask_assign. rewrite decide_True by done. f_equal.
  apply matrix_ext; [by apply zip_with_shape |].
  intros r c. rewrite mget_zip_with.
  destruct (mask_assign_cells _ _ _ _ r c HW) as [_ HWc].
  rewrite HWc.
  destruct (mget mMatrix r c) as [m|]; simpl; [| done].
  destruct (mget dMatrix r c) as [d|]; simpl; [| done].
  f_equal. apply (overlay_idemp nd m d).
Qed.

(** Reading back the window just written gives the matrix written, when
    it has the shape of the window. *)
Lemma read_written_window b x y w h (W : Matrix) :
  write_fits b x y W = true →
  length <$> W = length <$> read_window b x y w h →
  read_window (write_window b (Z.to_nat x) (Z.to_nat y) W) x y w h = W.
Proof.
  intros Hfit Hshape. apply matrix_ext.
  - rewrite Hshape. apply read_window_shape, write_window_shape.
  - intros r c. rewrite mget_read_window.
    destruct (mget W r c) as [v|] eqn:Hv.
    + assert (Hin : is_Some (mget (read_window b x y w h) r c)).
      { apply (same_shape_cells _ _ r c Hshape). by eexists. }
      rewrite mget_read_window in Hin.
      case_decide; [| by destruct Hin].
      by apply mget_written.
    + case_decide; [| done].
      assert (Hnone : mget (read_window b x y w h) r c = None).
      { apply eq_None_not_Some. intros Hs.
        apply (same_shape_cells _ _ r c Hshape) in Hs.
        rewrite Hv in Hs. by destruct Hs. }
      rewrite mget_read_window, decide_True in Hnone by done.
      by rewrite mget_write_window, Hnone.
Qed.

(** Writing the same matrix at the same place a second time changes
    nothing. *)
Lemma write_window_twice b x y (W : Matrix) :
  write_window (write_window b x y W) x y W = write_window b x y W.
Proof.
  apply matrix_ext.
  - by rewrite !write_window_shape.
  - intros r c. rewrite !mget_write_window.
    destruct (mget b r c) as [v|]; simpl; [| done].
    destruct ((y <=? r)%nat && (x <=? c)%nat); [| done].
    by destruct (mget W (r - y) (c - x)).
Qed.

(** ** The order in which the tiles are applied *)

#[global] Instance same_steps_preorder : PreOrder same_steps.
Proof.
  split.
  - by intros st.
  - intros st1 st2 st3 H12 H23. unfold same_steps in *. by rewrite H23, H12.
Qed.

Lemma emit_same_steps e : step_of e = None → invariant same_steps (emit e).
Proof.
  intros He st. unfold same_steps, steps. simpl.
  rewrite omap_app. simpl. rewrite He. by rewrite app_nil_r.
Qed.

Lemma put_file_same_steps p r : invariant same_steps (put_file p r).
Proof. by intros st. Qed.

Ltac quiet :=
  first
    [ apply emit_same_steps; reflexivity
    | apply put_file_same_steps
    | apply (invariant_get_file same_steps)
    | apply (invariant_ret same_steps)
    | apply (invariant_raise same_steps)
    | apply (invariant_lift same_steps)
    | apply (invariant_forM_ same_steps); intros ?
    | apply (invariant_mapM same_steps); intros ?
    | apply (invariant_bind same_steps); [| intros ?]
    | match goal with |- invariant _ (match ?x with _ => _ end) =>
        destruct x end
    | match goal with |- invariant _ (if ?x then _ else _) =>
        destruct x end ].

Lemma logs_invariant {A} (m : M A) st : invariant same_steps m → logs [] m st.
Proof.
  intros Hm. specialize (Hm st). unfold same_steps in Hm. split.
  - exists 0. by rewrite Hm, app_nil_r.
  - intros a _. by rewrite Hm, app_nil_r.
Qed.

Lemma logs_raise {A} L e st : logs L (@raise A e) st.
Proof. split; [exists 0; simpl; by rewrite app_nil_r | done]. Qed.

Lemma logs_emit e s st : step_of e = Some s → logs [s] (emit e) st.
Proof.
  intros He. unfold logs, steps. simpl. rewrite omap_app. simpl. rewrite He.
  split; [by exists 1 | done].
Qed.

Lemma logs_bind {A B} L1 L2 (m : M A) (k : A → M B) st :
  logs L1 m st →
  (∀ a st1, m st = (Ok a, st1) → logs L2 (k a) st1) →
  logs (L1 ++ L2) (bind m k) st.
Proof.
  intros [[k1 H1] Hok1] Hk. unfold logs, bind.
  destruct (m st) as [[a|e] st1] eqn:Hm; simpl in *.
  - specialize (Hok1 a eq_refl).
    destruct (Hk a st1 eq_refl) as [[k2 H2] Hok2]. split.
    + exists (length L1 + k2). rewrite H2, Hok1, take_app_add.
      by rewrite <- app_assoc.
    + intros b Hb. rewrite (Hok2 b Hb), Hok1. by rewrite <- app_assoc.
  - split; [| done]. exists (k1 `min` length L1).
    rewrite H1, take_app_le by lia. f_equal.
    destruct (Nat.min_spec k1 (length L1)) as [[_ ->]|[Hle ->]]; [done |].
    by rewrite !take_ge by lia.
Qed.

(** A computation that logs no step, followed by one that logs [L]. *)
Lemma logs_after {A B} L (m : M A) (k : A → M B) st :
  invariant same_steps m →
  (∀ a st1, m st = (Ok a, st1) → logs L (k a) st1) →
  logs L (bind m k) st.
Proof.
  intros Hm Hk. apply (logs_bind [] L); [by apply logs_invariant | done].
Qed.

(** A computation that logs [L], followed by one that logs no step. *)
Lemma logs_before {A B} L (m : M A) (k : A → M B) st :
  logs L m st → (∀ a, invariant same_steps (k a)) → logs L (bind m k) st.
Proof.
  intros Hm Hk. rewrite <- (app_nil_r L). apply logs_bind; [done |].
  intros a st1 _. by apply logs_invariant.
Qed.

Lemma mapM_length {A B} (f : A → M B) l st ys st1 :
  mapM f l st = (Ok ys, st1) → length ys = length l.
Proof.
  revert st ys st1. induction l as [|x l IH]; intros st ys st1; simpl.
  - by intros [= <- _].
  - intros H. apply bind_inv in H as (y & s1 & _ & H).
    apply bind_inv in H as (ys' & s2 & Hl & H).
    injection H as <- _. simpl. f_equal. by eapply IH.
Qed.

(** One pass fetches the tile and then writes the master. *)
Lemma add_dataset_logs tol master mInfo mExtent f d dInfo st :
  logs (match d with
        | DsPath p => [Fetched p; Written master]
        | DsHandle _ => [Written master]
        end)
       (add_dataset tol master mInfo mExtent f (d, dInfo)) st.
Proof.
  assert (Hrest : ∀ dMatrix0 st1,
    logs [Written master]
      (do idx <- lift (findWithin tol mExtent
                         (mkExtent (bounds dInfo) (srs dInfo))
                         (dx mInfo, dy mInfo) (yAtTop mInfo));
       do mMatrix <- ReadAsArray master (xStart idx) (yStart idx)
                                 (xWin idx) (yWin idx);
       do writeMatrix <- lift (writeMatrix_of f mMatrix mInfo
                                 (if yAtTop dInfo then dMatrix0
                                  else reverse dMatrix0) dInfo);
       WriteArray master writeMatrix (xStart idx) (yStart idx);;
       FlushCache master) st1).
  { intros dMatrix0 st1.
    apply logs_after; [quiet |]. intros idx st2 _.
    apply logs_after; [unfold ReadAsArray; repeat quiet |].
    intros mMatrix st3 _.
    apply logs_after; [quiet |]. intros W st4 _.
    apply logs_before; [| intros _; unfold FlushCache; quiet].
    unfold WriteArray.
    apply (logs_bind [Written master] []); [by apply logs_emit |].
    intros _ st5 _. apply logs_invariant. repeat quiet. }
  unfold add_dataset. cbn [fst snd]. destruct d as [p|r]; simpl.
  - apply (logs_bind [Fetched p] [Written master]); [| intros; apply Hrest].
    rewrite <- (app_nil_r [Fetched p]).
    apply logs_bind; [by apply logs_emit |].
    intros _ st1 _. apply logs_invariant. repeat quiet.
  - apply logs_after; [quiet | intros; apply Hrest].
Qed.

(** The loop applies the tiles in the order of the list. *)
Lemma loop_logs tol master mInfo mExtent f tiles st :
  logs (dataset_steps master tiles.*1)
       (forM_ (add_dataset tol master mInfo mExtent f) tiles) st.
Proof.
  revert st. induction tiles as [|[d i] tiles IH]; intros st.
  - apply logs_invariant. quiet.
  - cbn [forM_ fmap list_fmap fst]. unfold dataset_steps.
    rewrite bind_cons.
    apply logs_bind; [| intros _ st1 _; apply IH].
    apply add_dataset_logs.
Qed.

Lemma merge_phase_logs tol master info0 f tiles st :
  logs (dataset_steps master tiles.*1)
       (merge_phase tol master info0 f tiles) st.
Proof.
  unfold merge_phase.
  apply logs_after; [unfold gdal_Open; repeat quiet |].
  intros q st1 Hq. apply gdal_Open_inv in Hq as (-> & _).
  apply logs_after; [unfold rasterInfo; repeat quiet |]. intros mInfo st2 _.
  apply logs_after; [unfold check_master; repeat quiet |]. intros _ st3 _.
  apply logs_before; [apply loop_logs |].
  intros _. unfold FlushCache, calculateStats. repeat quiet.
Qed.

(** A run on a list of datasets applies them in the order of the list. *)
Lemma combine_logs glob tol master ds f ndv st :
  logs (dataset_steps master ds)
       (combineSimilarRasters glob tol master (ArgIter ds) f ndv) st.
Proof.
  unfold combineSimilarRasters.
  apply logs_after; [simpl; quiet |]. intros ds' st1 [= <- <-].
  destruct (decide _); [apply logs_raise |].
  apply logs_after; [unfold rasterInfo; repeat quiet |].
  intros infos st2 Hinfos. apply mapM_length in Hinfos.
  destruct infos as [|info0 others]; [apply logs_raise |].
  apply logs_after; [unfold check_dataset; repeat quiet |]. intros _ st3 _.
  apply logs_after; [quiet |]. intros x0 st4 _.
  apply logs_after; [quiet |]. intros x1 st5 _.
  apply logs_after; [quiet |]. intros y0 st6 _.
  apply logs_after; [quiet |]. intros y1 st7 _.
  apply logs_after;
    [unfold maybe_create, isfile, createRaster; repeat quiet |].
  intros _ st8 _.
  rewrite <- (fst_zip ds (info0 :: others)) at 1 by lia.
  apply merge_phase_logs.
Qed.

Lemma dataset_steps_paths master paths :
  dataset_steps master (DsPath <$> paths) = tile_steps master paths.
Proof.
  unfold dataset_steps, tile_steps.
  induction paths as [|p paths IH]; [done |].
  rewrite fmap_cons, !bind_cons. by rewrite IH.
Qed.

(** C10. A string argument is expanded by [glob] and the paths are sorted
    ascending: the list of datasets the code makes of it is the one
    sorted arrangement of the matching paths, and the call goes on
    exactly as a call on that list. The tiles are applied in this
    lexicographic path order: the log records, for each path in turn,
    that the tile is fetched and then that the master is written, for all
    the paths when the run returns and for the first of them when it
    raises, and nothing else is fetched or written. *)
Theorem glob_paths_sorted glob tol master pattern combiningFunc noDataValue st :
  let paths := merge_sort String.le (glob pattern) in
  let run := combineSimilarRasters glob tol master (ArgStr pattern)
                                   combiningFunc noDataValue st in
  Sorted String.le paths
  ∧ paths ≡ₚ glob pattern
  ∧ (∀ l, Sorted String.le l → l ≡ₚ glob pattern → l = paths)
  ∧ dataset_list glob (ArgStr pattern) st
    = (Ok (DsPath <$> paths),
       mkState (files st) (trace st ++ [EvGlob pattern]))
  ∧ run
    = combineSimilarRasters glob tol master (ArgIter (DsPath <$> paths))
        combiningFunc noDataValue
        (mkState (files st) (trace st ++ [EvGlob pattern]))
  ∧ (∃ k, steps (trace run.2)
          = steps (trace st) ++ take k (tile_steps master paths))
  ∧ (run.1 = Ok tt →
     steps (trace run.2) = steps (trace st) ++ tile_steps master paths).
Proof.
  intros paths run.
  assert (Hs : Sorted String.le paths) by apply (Sorted_merge_sort _).
  assert (Hp : paths ≡ₚ glob pattern) by apply (merge_sort_Permutation _).
  assert (Hrun : run
    = combineSimilarRasters glob tol master (ArgIter (DsPath <$> paths))
        combiningFunc noDataValue
        (mkState (files st) (trace st ++ [EvGlob pattern]))) by done.
  split; [done |]. split; [done |]. split.
  { intros l Hl Hlp. apply (Sorted_unique String.le); [done.. |].
    by rewrite Hlp, Hp. }
  split; [by destruct st |]. split; [done |].
  pose proof (combine_logs glob tol master (DsPath <$> paths) combiningFunc
                noDataValue
                (mkState (files st) (trace st ++ [EvGlob pattern])))
    as [Hk Hok].
  rewrite <- Hrun, dataset_steps_paths in Hk, Hok. cbn [trace] in Hk, Hok.
  unfold steps in Hk, Hok. rewrite omap_app in Hk, Hok.
  cbn [omap step_of] in Hk, Hok. rewrite app_nil_r in Hk, Hok.
  split; [exact Hk | exact (Hok tt)].
Qed.

(** ** Whole runs that succeed *)

Section whole_run.
Context (glob : string → list string) (tol : Q) (master : string)
  (a : DatasetsArg) (f : option CombiningFunc) (ndv : option Pixel)
  (st : State) (info0 : RasterInfo) (others : list RasterInfo).
Hypothesis Hdesc :
  described (files st) (datasets_of glob a) (info0 :: others).
Hypothesis Hag : Forall (agrees info0) others.

(** The stored rasters when the loop starts. *)
Let fsB : gmap string Raster :=
  with_master master
    (new_raster (data_bounds info0 others) (dtype info0) (dx info0)
       (dy info0) (choose_noData ndv (info0 :: others)) (srs info0)
       (choose_noData ndv (info0 :: others)))
    (files st).

Lemma combine_ok_inv st' :
  combineSimilarRasters glob tol master a f ndv st = (Ok tt, st') →
  ∃ mr trB sL,
    fsB !! master = Some mr ∧ agrees info0 (info mr)
    ∧ forM_ (add_dataset tol master (info mr)
               (mkExtent (bounds (info mr)) (srs (info mr))) f)
            (zip (datasets_of glob a) (info0 :: others)) (mkState fsB trB)
      = (Ok tt, sL)
    ∧ files st' = files sL.
Proof.
  rewrite (combine_valid_run _ _ _ _ _ _ _ _ _ Hdesc Hag).
  intros H. apply bind_inv in H as ([] & sB & Hcreate & H).
  destruct (maybe_create_run master ndv info0 (info0 :: others)
              (data_bounds info0 others) (files st)
              (trace st ++ glob_events a ++ info_events (datasets_of glob a)))
    as [trB HsB].
  rewrite HsB in Hcreate. injection Hcreate as <-. fold fsB in H.
  destruct (merge_phase_ok_inv _ _ _ _ _ _ _ H) as (mr & Hmr & Hagm).
  simpl in Hmr. rewrite (merge_phase_start _ _ _ _ _ _ _ mr) in H by done.
  apply loop_then_finish_inv in H as (sL & Hloop & Hfiles).
  eauto 10.
Qed.

Lemma combine_ok_run mr fsL :
  fsB !! master = Some mr → agrees info0 (info mr) →
  (∀ trB, ∃ sL,
     forM_ (add_dataset tol master (info mr)
              (mkExtent (bounds (info mr)) (srs (info mr))) f)
           (zip (datasets_of glob a) (info0 :: others)) (mkState fsB trB)
     = (Ok tt, sL) ∧ files sL = fsL) →
  ∃ st', combineSimilarRasters glob tol master a f ndv st = (Ok tt, st')
         ∧ files st' = fsL.
Proof.
  intros Hmr Hagm Hloop.
  rewrite (combine_valid_run _ _ _ _ _ _ _ _ _ Hdesc Hag).
  destruct (maybe_create_run master ndv info0 (info0 :: others)
              (data_bounds info0 others) (files st)
              (trace st ++ glob_events a ++ info_events (datasets_of glob a)))
    as [trB HsB].
  erewrite bind_run by exact HsB. fold fsB.
  rewrite (merge_phase_start _ _ _ _ _ _ _ mr) by done.
  destruct (Hloop (trB ++ [EvOpen master; EvInfo master]))
    as (sL & HsL & <-).
  by apply loop_then_finish_run.
Qed.

End whole_run.

(** A pass depends on the log only for what it appends to it. *)
Lemma add_dataset_rerun tol master mInfo mExtent f d dInfo st st1 :
  add_dataset tol master mInfo mExtent f (d, dInfo) st = (Ok tt, st1) →
  ∀ tr, ∃ tr',
    add_dataset tol master mInfo mExtent f (d, dInfo) (mkState (files st) tr)
    = (Ok tt, mkState (files st1) tr').
Proof.
  intros Hrun tr.
  apply add_dataset_inv in Hrun
    as (tile & mr & idx & W & Htile & Hmr & Hidx & Hfit & HW & Hwfit
        & Hfiles & _).
  eexists. rewrite Hfiles. by eapply add_dataset_run.
Qed.

Lemma dataset_raster_insert master mr fs d :
  d ≠ DsPath master →
  dataset_raster (<[master := mr]> fs) d = dataset_raster fs d.
Proof.
  intros Hne. destruct d as [p|r]; simpl; [| done].
  apply lookup_insert_ne. congruence.
Qed.

(** A second pass for the same nodata-carrying tile (the pass left the
    tile as it was) succeeds and leaves the stored rasters as the first
    pass left them. *)
Lemma add_dataset_twice tol master mInfo mExtent d dInfo nd st st1 :
  noData dInfo = Some nd →
  dataset_raster (files st1) d = dataset_raster (files st) d →
  add_dataset tol master mInfo mExtent None (d, dInfo) st = (Ok tt, st1) →
  ∀ tr, ∃ tr',
    add_dataset tol master mInfo mExtent None (d, dInfo)
                (mkState (files st1) tr)
    = (Ok tt, mkState (files st1) tr').
Proof.
  intros Hnd Hsame Hrun tr.
  apply add_dataset_inv in Hrun
    as (tile & mr & idx & W & Htile & Hmr & Hidx & Hfit & HW & Hwfit
        & Hfiles & _).
  unfold writeMatrix_of in HW. rewrite Hnd in HW.
  destruct (mask_assign_shape _ _ _ _ HW) as [HWm HWd].
  rewrite Htile, Hfiles in Hsame.
  set (mr1 := mkRaster (info mr)
                (write_window (band mr) (Z.to_nat (xStart idx))
                              (Z.to_nat (yStart idx)) W)) in *.
  eexists. rewrite Hfiles.
  erewrite (add_dataset_run _ _ _ _ _ _ _ _ _ tile mr1 idx W).
  - simpl. rewrite write_window_twice. fold mr1.
    rewrite insert_insert_eq. reflexivity.
  - exact Hsame.
  - apply lookup_insert_eq.
  - done.
  - simpl. by rewrite (window_fits_shape _ (band mr))
      by apply write_window_shape.
  - unfold writeMatrix_of. rewrite Hnd. simpl.
    rewrite read_written_window by done.
    by eapply mask_assign_idemp.
  - simpl. by rewrite (write_fits_shape _ (band mr))
      by apply write_window_shape.
Qed.

(** A dataset that can be read is not touched by the creation of the
    master. *)
Lemma with_master_described master mr0 fs d :
  is_Some (dataset_raster fs d) →
  dataset_raster (with_master master mr0 fs) d = dataset_raster fs d.
Proof.
  intros Hd. unfold with_master.
  destruct (fs !! master) as [mr|] eqn:Hmr; [done |].
  destruct d as [p|r]; simpl in *; [| done].
  destruct (decide (master = p)) as [<-|Hne].
  - rewrite Hmr in Hd. by destruct Hd.
  - by apply lookup_insert_ne.
Qed.

Lemma with_master_present master mr0 fs :
  is_Some (fs !! master) → with_master master mr0 fs = fs.
Proof. intros [mr Hmr]. unfold with_master. by rewrite Hmr. Qed.

Lemma data_bounds_twice i : data_bounds i [i] = data_bounds i [].
Proof.
  unfold data_bounds, min_from, max_from. simpl.
  by repeat match goal with |- context [Qle_bool ?x ?y] =>
              destruct (Qle_bool x y) end.
Qed.

Lemma choose_noData_twice ndv i :
  noData i ≠ Some NaN ∨ ndv ≠ None →
  choose_noData ndv [i; i] = choose_noData ndv [i].
Proof.
  intros H. destruct ndv as [v|]; [done |]. destruct H as [H|H]; [| done].
  rewrite choose_noData_single. apply choose_noData_common; [done | done |].
  intros j Hj. apply elem_of_cons in Hj as [->|Hj]; [done |].
  apply elem_of_cons in Hj as [->|Hj]; [done |]. by apply elem_of_nil in Hj.
Qed.

(** Two tiles that declare NaN leave the new master without a nodata
    value, even when they are one tile listed twice. *)
Lemma choose_noData_twice_NaN i :
  noData i = Some NaN → choose_noData None [i; i] = None.
Proof.
  intros H. apply (choose_noData_mixed 0 1 i i); [done | done | done |].
  by right.
Qed.

(** With NaN as nodata value the whole tile is selected. *)
Lemma mask_assign_NaN mMatrix dMatrix :
  length <$> mMatrix = length <$> dMatrix →
  mask_assign mMatrix dMatrix NaN = Ok dMatrix.
Proof.
  intros Hshape. unfold mask_assign. rewrite decide_True by done. f_equal.
  apply matrix_ext.
  - by rewrite zip_with_shape.
  - intros r c. rewrite mget_zip_with.
    destruct (mget dMatrix r c) as [d|] eqn:Hd.
    + destruct (proj2 (same_shape_cells _ _ r c Hshape)) as [m ->];
        [by eexists |].
      simpl. by rewrite pixel_ne_NaN.
    + by destruct (mget mMatrix r c).
Qed.

Lemma new_raster_shape b dt px py nd s fill nd' fill' :
  length <$> band (new_raster b dt px py nd s fill)
  = length <$> band (new_raster b dt px py nd' s fill').
Proof.
  destruct b as [[[x0 y0] x1] y1]. simpl.
  by rewrite !fmap_replicate, !length_replicate.
Qed.

(** A pass for a tile whose nodata value is NaN does on a master of the
    same shape and grid what it did on the first: it writes the tile's
    matrix into the same window. *)
Lemma add_dataset_NaN tol master mInfo ext mInfo' ext' d dInfo st st1
    fs' mr' :
  noData dInfo = Some NaN →
  add_dataset tol master mInfo ext None (d, dInfo) st = (Ok tt, st1) →
  fs' !! master = Some mr' →
  dataset_raster fs' d = dataset_raster (files st) d →
  findWithin tol ext' (mkExtent (bounds dInfo) (srs dInfo))
             (dx mInfo', dy mInfo') (yAtTop mInfo')
  = findWithin tol ext (mkExtent (bounds dInfo) (srs dInfo))
               (dx mInfo, dy mInfo) (yAtTop mInfo) →
  (∀ mr, files st !! master = Some mr →
         length <$> band mr' = length <$> band mr) →
  ∃ tile mr idx,
    dataset_raster (files st) d = Some tile
    ∧ files st !! master = Some mr
    ∧ findWithin tol ext (mkExtent (bounds dInfo) (srs dInfo))
                 (dx mInfo, dy mInfo) (yAtTop mInfo) = Ok idx
    ∧ write_fits (band mr) (xStart idx) (yStart idx)
        (if yAtTop dInfo then band tile else reverse (band tile)) = true
    ∧ files st1
      = <[master := mkRaster (info mr)
            (write_window (band mr) (Z.to_nat (xStart idx))
               (Z.to_nat (yStart idx))
               (if yAtTop dInfo then band tile else reverse (band tile)))]>
          (files st)
    ∧ ∀ tr, ∃ tr',
        add_dataset tol master mInfo' ext' None (d, dInfo) (mkState fs' tr)
        = (Ok tt,
           mkState
             (<[master := mkRaster (info mr')
                  (write_window (band mr') (Z.to_nat (xStart idx))
                     (Z.to_nat (yStart idx))
                     (if yAtTop dInfo then band tile
                      else reverse (band tile)))]> fs') tr').
Proof.
  intros Hnd Hrun Hmr' Hsame Hwin Hshape.
  apply add_dataset_inv in Hrun
    as (tile & mr & idx & W & Htile & Hmr & Hidx & Hfit & HW & Hwfit
        & Hfiles & _).
  unfold writeMatrix_of in HW. rewrite Hnd in HW.
  destruct (mask_assign_cells _ _ _ _ 0 0 HW) as [HshW _].
  rewrite (mask_assign_NaN _ _ HshW) in HW. injection HW as <-.
  specialize (Hshape mr Hmr).
  exists tile, mr, idx. split; [done |]. split; [done |]. split; [done |].
  split; [done |]. split; [done |].
  intros tr. eexists.
  eapply add_dataset_run.
  - by rewrite Hsame.
  - exact Hmr'.
  - by rewrite Hwin.
  - by rewrite (window_fits_shape _ (band mr)).
  - unfold writeMatrix_of. rewrite Hnd. apply mask_assign_NaN.
    by rewrite (read_window_shape _ (band mr)).
  - by rewrite (write_fits_shape _ (band mr)).
Qed.

(** C7. A tile that declares a nodata value, merged with no
    [combiningFunc] by a run that succeeds and leaves the tile itself as
    it was (so that the second application is of the same tile): applying
    it a second time, whether listed twice in one call or by a second call
    on the result, succeeds too. The second call leaves every stored
    raster, so every pixel of the master, as the first application left
    it. So does the tile listed twice, unless its nodata value is NaN and
    the call creates the master with no [noDataValue] given: the new
    master then has no nodata value where it has NaN for the tile listed
    once, and the rasters other than the master and the cells of the
    master under the tile are the same all the same. *)
Theorem sparse_overlay_idempotent glob tol master d tile nd noDataValue
    st st1 :
  dataset_raster (files st) d = Some tile →
  noData (info tile) = Some nd →
  combineSimilarRasters glob tol master (ArgIter [d]) None noDataValue st
  = (Ok tt, st1) →
  dataset_raster (files st1) d = Some tile →
  (∃ st2,
     combineSimilarRasters glob tol master (ArgIter [d; d]) None
                           noDataValue st = (Ok tt, st2)
     ∧ (nd ≠ NaN ∨ noDataValue ≠ None ∨ files st !! master ≠ None →
        files st2 = files st1)
     ∧ (∀ p, p ≠ master → files st2 !! p = files st1 !! p)
     ∧ ∃ m1 m2 idx,
         files st1 !! master = Some m1
         ∧ files st2 !! master = Some m2
         ∧ window_of tol (info m1) (info tile) = Ok idx
         ∧ ∀ r c,
             under (Z.to_nat (xStart idx)) (Z.to_nat (yStart idx))
                   (top_down tile) r c →
             mget (band m2) r c = mget (band m1) r c)
  ∧ (∃ st3,
       combineSimilarRasters glob tol master (ArgIter [d]) None
                             noDataValue st1 = (Ok tt, st3)
       ∧ files st3 = files st1).
Proof.
  intros Hd Hnd Hrun Hd1.
  assert (Hdesc1 : described (files st) (datasets_of glob (ArgIter [d]))
                             [info tile]).
  { repeat constructor. simpl. by rewrite Hd. }
  destruct (combine_ok_inv glob tol master (ArgIter [d]) None noDataValue
              st (info tile) [] Hdesc1 (Forall_nil_2 _) st1 Hrun)
    as (mr & trB & sL & Hmr & Hagm & Hloop & Hfiles).
  simpl in Hloop.
  apply bind_inv in Hloop as ([] & s1 & Hpass & Hret).
  injection Hret as <-.
  pose proof (add_dataset_inv _ _ _ _ _ _ _ _ _ Hpass)
    as (tile' & mr' & idx & W & _ & Hmr' & Hidx & _ & _ & _ & Hf1 & _).
  assert (Heq : Some mr' = Some mr)
    by (rewrite <- Hmr', <- Hmr; reflexivity).
  injection Heq as ->. cbn [files] in Hf1.
  set (fsA := with_master master
                (new_raster (data_bounds (info tile) [])
                   (dtype (info tile)) (dx (info tile)) (dy (info tile))
                   (choose_noData noDataValue [info tile])
                   (srs (info tile))
                   (choose_noData noDataValue [info tile]))
                (files st)) in *.
  assert (Hsame : dataset_raster (files s1) d
                  = dataset_raster (files (mkState fsA trB)) d).
  { cbn [files]. unfold fsA.
    rewrite with_master_described by (by rewrite Hd).
    by rewrite <- Hfiles, Hd1, Hd. }
  assert (Hst1 : files st1 !! master
                 = Some (mkRaster (info mr)
                           (write_window (band mr) (Z.to_nat (xStart idx))
                              (Z.to_nat (yStart idx)) W))).
  { rewrite Hfiles, Hf1. apply lookup_insert_eq. }
  split.
  - destruct (decide (nd = NaN ∧ noDataValue = None
                      ∧ files st !! master = None))
      as [(-> & -> & Habs)|Hcase].
    + (* the master is created, with NaN for the tile listed once *)
      set (mrB := new_raster (data_bounds (info tile) [info tile])
                    (dtype (info tile)) (dx (info tile)) (dy (info tile))
                    (choose_noData None [info tile; info tile])
                    (srs (info tile))
                    (choose_noData None [info tile; info tile])).
      assert (HmrA : mr = new_raster (data_bounds (info tile) [])
                          (dtype (info tile)) (dx (info tile))
                          (dy (info tile))
                          (choose_noData None [info tile])
                          (srs (info tile))
                          (choose_noData None [info tile])).
      { unfold fsA in Hmr. rewrite with_master_lookup, Habs in Hmr.
        by injection Hmr. }
      assert (HfsA : fsA = <[master := mr]> (files st)).
      { unfold fsA, with_master. by rewrite Habs, HmrA. }
      assert (HfsB : with_master master mrB (files st)
                     = <[master := mrB]> (files st)).
      { unfold with_master. by rewrite Habs. }
      assert (Hne : d ≠ DsPath master).
      { intros ->. simpl in Hd. by rewrite Habs in Hd. }
      destruct (add_dataset_NaN tol master (info mr)
                  (mkExtent (bounds (info mr)) (srs (info mr)))
                  (info mrB) (mkExtent (bounds (info mrB)) (srs (info mrB)))
                  d (info tile) (mkState fsA trB) s1
                  (<[master := mrB]> (files st)) mrB Hnd Hpass)
        as (tile0 & mr0 & idx0 & Htile0 & Hmr0 & Hidx0 & Hwfit0 & Hf0 & HpassB).
      { apply lookup_insert_eq. }
      { cbn [files]. rewrite HfsA.
        by rewrite !dataset_raster_insert. }
      { rewrite HmrA. unfold mrB. rewrite data_bounds_twice.
        by destruct (data_bounds (info tile) []) as [[[x0 y0] x1] y1]. }
      { cbn [files]. intros mr1 Hmr1.
        assert (Heq : Some mr1 = Some mr)
          by (rewrite <- Hmr1, <- Hmr; reflexivity).
        injection Heq as ->. rewrite HmrA. unfold mrB.
        rewrite data_bounds_twice. apply new_raster_shape. }
      cbn [files] in Htile0, Hmr0, Hf0.
      assert (Heq : Some mr0 = Some mr)
        by (rewrite <- Hmr0, <- Hmr; reflexivity).
      injection Heq as ->.
      assert (Heq : Some tile0 = Some tile).
      { rewrite <- Htile0, <- Hd. unfold fsA.
        apply with_master_described. by rewrite Hd. }
      injection Heq as ->.
      assert (Heq : Ok idx0 = Ok idx) by (rewrite <- Hidx0, <- Hidx; done).
      injection Heq as ->.
      set (dM := if yAtTop (info tile) then band tile
                 else reverse (band tile)) in *.
      set (m2 := mkRaster (info mrB)
                   (write_window (band mrB) (Z.to_nat (xStart idx))
                      (Z.to_nat (yStart idx)) dM)).
      destruct (combine_ok_run glob tol master (ArgIter [d; d]) None None
                  st (info tile) [info tile]) with (mr := mrB)
                  (fsL := <[master := m2]> (<[master := mrB]> (files st)))
        as (st2 & Hrun2 & Hfiles2).
      * repeat constructor; simpl; by rewrite Hd.
      * constructor; [apply agrees_refl | constructor].
      * fold mrB. rewrite HfsB. apply lookup_insert_eq.
      * unfold mrB.
        destruct (new_raster_info (data_bounds (info tile) [info tile])
                    (dtype (info tile)) (dx (info tile)) (dy (info tile))
                    (choose_noData None [info tile; info tile])
                    (srs (info tile))
                    (choose_noData None [info tile; info tile]))
          as (_ & _ & Hs & Hx & Hy & Ht & _).
        unfold agrees. rewrite Hs, Hx, Hy, Ht. repeat split; reflexivity.
      * intros tr. fold mrB. rewrite HfsB. simpl.
        destruct (HpassB tr) as [tr1 H1].
        erewrite bind_run by exact H1.
        destruct (add_dataset_twice tol master (info mrB)
                    (mkExtent (bounds (info mrB)) (srs (info mrB)))
                    d (info tile) NaN
                    (mkState (<[master := mrB]> (files st)) tr)
                    (mkState (<[master := m2]> (<[master := mrB]> (files st)))
                       tr1) Hnd) with (tr := tr1) as [tr2 H2].
        { cbn [files]. by rewrite !dataset_raster_insert. }
        { exact H1. }
        cbn [files] in H2. erewrite bind_run by exact H2.
        eexists. split; [reflexivity | done].
      * exists st2. split; [done |]. split.
        { intros [H|[H|H]]; [done | done |]. by rewrite Habs in H. }
        split.
        { intros p Hp. rewrite Hfiles2, Hfiles, Hf0, HfsA.
          by rewrite !lookup_insert_ne by done. }
        exists (mkRaster (info mr)
                  (write_window (band mr) (Z.to_nat (xStart idx))
                     (Z.to_nat (yStart idx)) dM)), m2, idx.
        split; [rewrite Hfiles, Hf0; apply lookup_insert_eq |].
        split; [rewrite Hfiles2; apply lookup_insert_eq |].
        split; [exact Hidx |].
        intros r c (Hr & Hc & [v Hv]).
        assert (Hshape : length <$> band mrB = length <$> band mr).
        { rewrite HmrA. unfold mrB. rewrite data_bounds_twice.
          apply new_raster_shape. }
        unfold m2. clearbody mrB. cbn [band].
        rewrite !mget_write_window.
        apply Nat.leb_le in Hr, Hc. rewrite Hr, Hc. cbn [andb].
        unfold top_down in Hv. fold dM in Hv. rewrite Hv. cbn [default].
        pose proof (same_shape_cells _ _ r c Hshape) as Hcells.
        destruct (mget (band mrB) r c) as [vB|], (mget (band mr) r c) as [vA|];
          [done | | | done].
        -- destruct (proj1 Hcells) as [? ?]; [by eexists | done].
        -- destruct (proj2 Hcells) as [? ?]; [by eexists | done].
    + (* the two runs start the loop on the same rasters *)
      assert (HfsB : with_master master
                       (new_raster (data_bounds (info tile) [info tile])
                          (dtype (info tile)) (dx (info tile))
                          (dy (info tile))
                          (choose_noData noDataValue [info tile; info tile])
                          (srs (info tile))
                          (choose_noData noDataValue [info tile; info tile]))
                       (files st) = fsA).
      { unfold fsA. destruct (files st !! master) as [m0|] eqn:Hm0.
        - rewrite !with_master_present by (by rewrite Hm0). done.
        - rewrite data_bounds_twice, choose_noData_twice; [done |].
          rewrite Hnd. destruct (decide (nd = NaN)) as [->|Hn].
          + right. intros ->. by apply Hcase.
          + left. congruence. }
      destruct (combine_ok_run glob tol master (ArgIter [d; d]) None
                  noDataValue st (info tile) [info tile]) with (mr := mr)
                  (fsL := files st1)
        as (st2 & Hrun2 & Hfiles2).
      * repeat constructor; simpl; by rewrite Hd.
      * constructor; [apply agrees_refl | constructor].
      * by rewrite HfsB.
      * done.
      * intros tr. rewrite HfsB. simpl.
        destruct (add_dataset_rerun _ _ _ _ _ _ _ _ _ Hpass tr) as [tr1 H1].
        destruct (add_dataset_twice _ _ _ _ _ _ _ _ _ Hnd Hsame Hpass tr1)
          as [tr2 H2].
        simpl in H1. erewrite bind_run by exact H1.
        erewrite bind_run by exact H2.
        eexists. split; [reflexivity | done].
      * exists st2. split; [done |]. split; [done |].
        split; [intros p _; by rewrite Hfiles2 |].
        eexists _, _, idx. split; [exact Hst1 |].
        split; [rewrite Hfiles2; exact Hst1 |].
        split; [exact Hidx | done].
  - apply (combine_ok_run glob tol master (ArgIter [d]) None noDataValue
             st1 (info tile) [])
      with (mr := mkRaster (info mr)
                    (write_window (band mr) (Z.to_nat (xStart idx))
                       (Z.to_nat (yStart idx)) W)).
    + repeat constructor. simpl. by rewrite Hd1.
    + constructor.
    + by rewrite with_master_present by (by rewrite Hst1).
    + done.
    + intros tr. rewrite with_master_present by (by rewrite Hst1). simpl.
      rewrite Hfiles.
      destruct (add_dataset_twice _ _ _ _ _ _ _ _ _ Hnd Hsame Hpass tr)
        as [tr2 H2].
      erewrite bind_run by exact H2.
      eexists. split; [reflexivity | done].
Qed.

(** ** Rounding and the sub-window resolver *)

(** [round] returns an integer at distance at most one half. *)
Lemma round_near (v : Q) : near (1 # 2) v (round v).
Proof.
  unfold near, round.
  pose proof (Qfloor_le v) as Hlo. pose proof (Qlt_floor v) as Hhi.
  rewrite inject_Z_plus in Hhi. change (inject_Z 1) with 1%Q in Hhi.
  apply Qabs_Qle_condition.
  destruct (v - inject_Z (Qfloor v) ?= 1 # 2)%Q eqn:Hc.
  - apply Qeq_alt in Hc. destruct (Z.even (Qfloor v));
      rewrite ?inject_Z_plus; change (inject_Z 1) with 1%Q; split; lra.
  - apply Qlt_alt in Hc. split; lra.
  - apply Qgt_alt in Hc. rewrite inject_Z_plus.
    change (inject_Z 1) with 1%Q. split; lra.
Qed.

(** Two integers at distance less than one are equal. *)
Lemma integers_apart (n k : Z) :
  (Qabs (inject_Z n - inject_Z k) < 1)%Q → n = k.
Proof.
  intros H. apply Qabs_Qlt_condition in H as [H1 H2].
  assert (Hlt1 : (inject_Z n < inject_Z (k + 1))%Q)
    by (rewrite inject_Z_plus; change (inject_Z 1) with 1%Q; lra).
  assert (Hlt2 : (inject_Z k < inject_Z (n + 1))%Q)
    by (rewrite inject_Z_plus; change (inject_Z 1) with 1%Q; lra).
  rewrite <- Zlt_Qlt in Hlt1, Hlt2. lia.
Qed.

(** The integer a value lands on, within a tolerance below one half, is
    the one [round] returns. *)
Lemma round_unique (tol v : Q) (n : Z) :
  (tol < 1 # 2)%Q → near tol v n → round v = n.
Proof.
  intros Htol Hn. apply integers_apart.
  pose proof (round_near v) as Hr. unfold near in *.
  apply Qabs_Qle_condition in Hn, Hr. apply Qabs_Qlt_condition.
  split; lra.
Qed.

Lemma lands_on_integer_near tol v :
  lands_on_integer tol v = true ↔ near tol v (round v).
Proof. unfold lands_on_integer, near. apply Qle_bool_iff. Qed.

Lemma lands_on_integer_iff tol v :
  (tol < 1 # 2)%Q →
  lands_on_integer tol v = true ↔ ∃ n, near tol v n.
Proof.
  intros Htol. rewrite lands_on_integer_near. split; [eauto |].
  intros [n Hn]. by rewrite (round_unique tol v n).
Qed.

Lemma findWithin_top_down tol mXMin mYMin mXMax mYMax ms
    sXMin sYMin sXMax sYMax ss dx dy :
  findWithin tol (mkExtent (mXMin, mYMin, mXMax, mYMax) ms)
             (mkExtent (sXMin, sYMin, sXMax, sYMax) ss) (dx, dy) true
  = if lands_on_integer tol ((sXMin - mXMin) / dx)
       && lands_on_integer tol ((mYMax - sYMax) / dy)
       && lands_on_integer tol ((sXMax - sXMin) / dx)
       && lands_on_integer tol ((sYMax - sYMin) / dy)
    then Ok (mkWin (round ((sXMin - mXMin) / dx))
                   (round ((mYMax - sYMax) / dy))
                   (round ((sXMax - sXMin) / dx))
                   (round ((sYMax - sYMin) / dy)))
    else Raise MisalignedTile.
Proof. reflexivity. Qed.

(** C8. The resolver for a top-down master, with a tolerance below one
    half: it returns a window exactly when each of
    (subXMin - masterXMin) / dx, (masterYMax - subYMax) / dy,
    (subXMax - subXMin) / dx and (subYMax - subYMin) / dy is within the
    tolerance of an integer, the window then being made of these integers,
    which are the values [round] gives; otherwise it raises
    [MisalignedTile]. A tile of bounds (0,0,10,10) in a master of bounds
    (0,0,20,20), both at dx = dy = 1, gets xStart = 0, yStart = 10,
    xWin = 10, yWin = 10. *)
Theorem findWithin_resolves tol mXMin mYMin mXMax mYMax ms
    sXMin sYMin sXMax sYMax ss dx dy :
  (0 <= tol)%Q → (tol < 1 # 2)%Q →
  let m := mkExtent (mXMin, mYMin, mXMax, mYMax) ms in
  let sub := mkExtent (sXMin, sYMin, sXMax, sYMax) ss in
  let xOff := ((sXMin - mXMin) / dx)%Q in
  let yOff := ((mYMax - sYMax) / dy)%Q in
  let xW := ((sXMax - sXMin) / dx)%Q in
  let yW := ((sYMax - sYMin) / dy)%Q in
  (∀ w, findWithin tol m sub (dx, dy) true = Ok w ↔
        near tol xOff (xStart w) ∧ near tol yOff (yStart w)
        ∧ near tol xW (xWin w) ∧ near tol yW (yWin w))
  ∧ (∀ w, findWithin tol m sub (dx, dy) true = Ok w →
          w = mkWin (round xOff) (round yOff) (round xW) (round yW))
  ∧ (findWithin tol m sub (dx, dy) true = Raise MisalignedTile ↔
     ¬ ((∃ n, near tol xOff n) ∧ (∃ n, near tol yOff n)
        ∧ (∃ n, near tol xW n) ∧ (∃ n, near tol yW n)))
  ∧ findWithin tol (mkExtent (0, 0, 20, 20)%Q ms)
               (mkExtent (0, 0, 10, 10)%Q ss) (1, 1)%Q true
    = Ok (mkWin 0 10 10 10).
Proof.
  intros Htol0 Htol m sub xOff yOff xW yW.
  assert (Hiff : ∀ w, findWithin tol m sub (dx, dy) true = Ok w ↔
            near tol xOff (xStart w) ∧ near tol yOff (yStart w)
            ∧ near tol xW (xWin w) ∧ near tol yW (yWin w)).
  { intros w. unfold m, sub. rewrite findWithin_top_down.
    fold xOff yOff xW yW. split.
    - destruct (lands_on_integer tol xOff) eqn:H1; [| done].
      destruct (lands_on_integer tol yOff) eqn:H2; [| done].
      destruct (lands_on_integer tol xW) eqn:H3; [| done].
      destruct (lands_on_integer tol yW) eqn:H4; [| done].
      simpl. intros [= <-]. simpl.
      by rewrite <- !lands_on_integer_near.
    - intros (H1 & H2 & H3 & H4).
      rewrite (round_unique tol xOff _ Htol H1).
      rewrite (round_unique tol yOff _ Htol H2).
      rewrite (round_unique tol xW _ Htol H3).
      rewrite (round_unique tol yW _ Htol H4).
      rewrite !(proj2 (lands_on_integer_iff tol _ Htol)) by eauto.
      simpl. by destruct w. }
  split; [exact Hiff |]. split; [| split].
  - intros w Hw. apply Hiff in Hw as (H1 & H2 & H3 & H4).
    rewrite (round_unique tol xOff _ Htol H1).
    rewrite (round_unique tol yOff _ Htol H2).
    rewrite (round_unique tol xW _ Htol H3).
    rewrite (round_unique tol yW _ Htol H4).
    by destruct w.
  - unfold m, sub. rewrite findWithin_top_down. fold xOff yOff xW yW.
    rewrite <- !(lands_on_integer_iff tol _ Htol).
    destruct (lands_on_integer tol xOff), (lands_on_integer tol yOff),
      (lands_on_integer tol xW), (lands_on_integer tol yW); simpl;
      (split; [intros Hl | intros Hr]);
      first [ done
            | intros (? & ? & ? & ?); done
            | exfalso; apply Hr; done ].
  - assert (Hz : ∀ v n, (v == inject_Z n)%Q → near tol v n).
    { intros v n Hv. unfold near. apply Qabs_Qle_condition. split; lra. }
    rewrite findWithin_top_down.
    rewrite !(proj2 (lands_on_integer_iff tol _ Htol)).
    all: first [ reflexivity
               | exists 0%Z; apply Hz; unfold Qeq; reflexivity
               | exists 10%Z; apply Hz; unfold Qeq; reflexivity ].
Qed.






Lemma agrees_sym i j : agrees i j → agrees j i.
Proof. intros (? & ? & ? & ?). by repeat split. Qed.



(** ** Two dense tiles *)





(** ** The theorems at sample inputs *)



(** C2 on the tiles A and F, which differ in datatype, with M stored. *)
Lemma schema_mismatch_before_mutation_witness :
  let a := ArgIter [DsHandle ex_A; DsHandle ex_F] in
  ∃ msg i st',
    combineSimilarRasters ex_glob 0 "m" a None None ex_stored
    = (Raise (GeoKitError msg), st')
    ∧ i ∈ [info ex_F] ∧ names_mismatch msg (info ex_A) i
    ∧ files st' = files ex_stored
    ∧ trace st'
      = trace ex_stored ++ glob_events a
        ++ info_events (datasets_of ex_glob a)
    ∧ Forall (λ e, is_mutation e = false)
             (glob_events a ++ info_events (datasets_of ex_glob a)).
Proof.
  apply (schema_mismatch_before_mutation ex_glob 0 "m"
           (ArgIter [DsHandle ex_A; DsHandle ex_F]) None None ex_stored
           (info ex_A) [info ex_F]).
  - repeat constructor.
  - apply Exists_cons_hd. intros (_ & _ & _ & Hdt). discriminate Hdt.
Defined.

(** C4 on the tiles A and B with no master stored: the new master spans
    columns 0 to 3. *)
Lemma new_master_bounds_union_witness :
  let a := ArgIter [DsHandle ex_A; DsHandle ex_B] in
  ∃ mr,
    files (combineSimilarRasters ex_glob 0 "m" a None None ex_none).2 !! "m"
    = Some mr
    ∧ bounds (info mr) = data_bounds (info ex_A) [info ex_B]
    ∧ union_bbox [info ex_A; info ex_B] (bounds (info mr)).
Proof.
  apply (new_master_bounds_union ex_glob 0 "m"
           (ArgIter [DsHandle ex_A; DsHandle ex_B]) None None ex_none
           (info ex_A) [info ex_B]).
  - reflexivity.
  - repeat constructor.
  - repeat constructor.
Defined.




(** C7 on the tile S with no master stored. *)
Lemma sparse_overlay_idempotent_witness :
  let d := DsHandle ex_S in
  let st1 := (combineSimilarRasters ex_glob 0 "m" (ArgIter [d]) None None
                                    ex_none).2 in
  (∃ st2,
     combineSimilarRasters ex_glob 0 "m" (ArgIter [d; d]) None None ex_none
     = (Ok tt, st2)
     ∧ (Num 0 ≠ NaN ∨ @None Pixel ≠ None ∨ files ex_none !! "m" ≠ None →
        files st2 = files st1)
     ∧ (∀ p, p ≠ "m" → files st2 !! p = files st1 !! p)
     ∧ ∃ m1 m2 idx,
         files st1 !! "m" = Some m1
         ∧ files st2 !! "m" = Some m2
         ∧ window_of 0 (info m1) (info ex_S) = Ok idx
         ∧ ∀ r c,
             under (Z.to_nat (xStart idx)) (Z.to_nat (yStart idx))
                   (top_down ex_S) r c →
             mget (band m2) r c = mget (band m1) r c)
  ∧ (∃ st3,
       combineSimilarRasters ex_glob 0 "m" (ArgIter [d]) None None st1
       = (Ok tt, st3)
       ∧ files st3 = files st1).
Proof.
  apply (sparse_overlay_idempotent ex_glob 0 "m" (DsHandle ex_S) ex_S
           (Num 0) None ex_none).
  - reflexivity.
  - reflexivity.
  - vm_compute. reflexivity.
  - reflexivity.
Defined.

(** C8 with the exact tolerance 0, for a tile of bounds (5,0,15,10) in a
    master of bounds (0,0,20,20). *)
Lemma findWithin_resolves_witness :
  let m := mkExtent (0, 0, 20, 20)%Q 4326%Z in
  let sub := mkExtent (5, 0, 15, 10)%Q 4326%Z in
  let xOff := ((5 - 0) / 1)%Q in
  let yOff := ((20 - 10) / 1)%Q in
  let xW := ((15 - 5) / 1)%Q in
  let yW := ((10 - 0) / 1)%Q in
  (∀ w, findWithin 0 m sub (1, 1)%Q true = Ok w ↔
        near 0 xOff (xStart w) ∧ near 0 yOff (yStart w)
        ∧ near 0 xW (xWin w) ∧ near 0 yW (yWin w))
  ∧ (∀ w, findWithin 0 m sub (1, 1)%Q true = Ok w →
          w = mkWin (round xOff) (round yOff) (round xW) (round yW))
  ∧ (findWithin 0 m sub (1, 1)%Q true = Raise MisalignedTile ↔
     ¬ ((∃ n, near 0 xOff n) ∧ (∃ n, near 0 yOff n)
        ∧ (∃ n, near 0 xW n) ∧ (∃ n, near 0 yW n)))
  ∧ findWithin 0 (mkExtent (0, 0, 20, 20)%Q 4326%Z)
               (mkExtent (0, 0, 10, 10)%Q 4326%Z) (1, 1)%Q true
    = Ok (mkWin 0 10 10 10).
Proof.
  apply (findWithin_resolves 0 0 0 20 20 4326%Z 5 0 15 10 4326%Z 1 1).
  - apply Qle_refl.
  - reflexivity.
Defined.

(** A tile offset by half a pixel is refused (section 8). *)
Example findWithin_half_pixel tol :
  (tol < 1 # 2)%Q →
  findWithin tol (mkExtent (0, 0, 20, 20)%Q 4326%Z)
             (mkExtent (0.5, 0, 10.5, 10)%Q 4326%Z) (1, 1)%Q true
  = Raise MisalignedTile.
Proof.
  intros Htol. rewrite findWithin_top_down.
  assert (Hoff : lands_on_integer tol ((0.5 - 0) / 1) = false).
  { apply not_true_is_false. rewrite lands_on_integer_iff by done.
    intros [n Hn]. unfold near in Hn.
    apply Qabs_Qle_condition in Hn as [H1 H2].
    assert (Hq : ((0.5 - 0) / 1 == 1 # 2)%Q) by reflexivity.
    rewrite Hq in H1, H2.
    assert (Hlt1 : (inject_Z 0 < inject_Z n + 1)%Q)
      by (change (inject_Z 0) with 0%Q; lra).
    assert (Hlt2 : (inject_Z n < inject_Z 1)%Q)
      by (change (inject_Z 1) with 1%Q; lra).
    change 1%Q with (inject_Z 1) in Hlt1.
    rewrite <- inject_Z_plus, <- Zlt_Qlt in Hlt1.
    rewrite <- Zlt_Qlt in Hlt2.
    assert (n = 0%Z) as -> by lia.
    change (inject_Z 0) with 0%Q in H1, H2. lra. }
  by rewrite Hoff.
Qed.

(** ** Sample runs *)

(** A then B: column 1 holds B's 5 and 7; B then A: it holds A's 2 and
    4. *)
Example run_A_B :
  band <$> files (combineSimilarRasters ex_glob 0 "m"
                    (ArgIter [DsHandle ex_A; DsHandle ex_B]) None None
                    ex_none).2 !! "m"
  = Some (px [[1; 5; 6]; [3; 7; 8]]%Z).
Proof. vm_compute. reflexivity. Qed.

Example run_B_A :
  band <$> files (combineSimilarRasters ex_glob 0 "m"
                    (ArgIter [DsHandle ex_B; DsHandle ex_A]) None None
                    ex_none).2 !! "m"
  = Some (px [[1; 2; 6]; [3; 4; 8]]%Z).
Proof. vm_compute. reflexivity. Qed.

(** A then S: the zeros of S leave A's 2 and the fill value in place. *)
Example run_A_S :
  band <$> files (combineSimilarRasters ex_glob 0 "m"
                    (ArgIter [DsHandle ex_A; DsHandle ex_S]) None None
                    ex_none).2 !! "m"
  = Some (px [[1; 2; 6]; [3; 7; 0]]%Z).
Proof. vm_compute. reflexivity. Qed.

(** Two float tiles N, whose nodata value is NaN, with no master stored:
    listed once the new master declares NaN, listed twice it declares no
    nodata value; the tile is copied whole either way. *)
Example run_N_N :
  let run1 := combineSimilarRasters ex_glob 0 "m" (ArgIter [DsHandle ex_N])
                                    None None ex_none in
  let run2 := combineSimilarRasters ex_glob 0 "m"
                (ArgIter [DsHandle ex_N; DsHandle ex_N]) None None ex_none in
  files run1.2 !! "m" = Some ex_N
  ∧ files run2.2 !! "m"
    = Some (mkRaster (ex_info 1 3 GDT_Float32 None) (band ex_N)).
Proof. split; vm_compute; reflexivity. Qed.

(** The pattern matches "b.tif" and then "a.tif": A is applied first and
    B second, so column 1 holds B's 5 and 7. *)
Example run_glob_sorted :
  let run := combineSimilarRasters ex_glob_ba 0 "m" (ArgStr "*.tif") None
                                   None ex_tiles in
  run.1 = Ok tt
  ∧ steps (trace run.2)
    = [Fetched "a.tif"; Written "m"; Fetched "b.tif"; Written "m"]
  ∧ band <$> files run.2 !! "m" = Some (px [[1; 5; 6]; [3; 7; 8]]%Z).
Proof. repeat split; vm_compute; reflexivity. Qed.

(** A master merged into itself is not the same tile the second time:
    U is stored bottom-up, so the pass reverses its rows, and a second
    pass reverses them again. *)
Example run_self_changes_tile :
  let st1 := (combineSimilarRasters ex_glob 0 "m" (ArgIter [DsPath "m"])
                                    None None ex_self).2 in
  band <$> dataset_raster (files ex_self) (DsPath "m")
  = Some (px [[1]; [2]]%Z)
  ∧ band <$> dataset_raster (files st1) (DsPath "m")
    = Some (px [[2]; [1]]%Z).
Proof. split; vm_compute; reflexivity. Qed.

(* ===================================================================== *)
(** * Part III: further properties of the code                             *)
(* ===================================================================== *)

(** ** What a run leaves alone *)

#[global] Instance untouched_preorder master : PreOrder (untouched master).
Proof.
  split.
  - intros st. split; [done | eauto].
  - intros s1 s2 s3 [Ha1 Hb1] [Ha2 Hb2]. split.
    + intros p Hp. by rewrite Ha2, Ha1.
    + intros p r Hr. destruct (Hb1 p r Hr) as (r1 & Hr1 & Hi1).
      destruct (Hb2 p r1 Hr1) as (r2 & Hr2 & Hi2).
      exists r2. split; [done | congruence].
Qed.

Lemma emit_untouched master e : invariant (untouched master) (emit e).
Proof. intros st. simpl. split; [done | eauto]. Qed.

Lemma WriteArray_untouched master m xoff yoff :
  invariant (untouched master) (WriteArray master m xoff yoff).
Proof.
  intros [fs tr]. unfold WriteArray, bind, emit, get_file; simpl.
  destruct (fs !! master) as [r|] eqn:Hp; simpl;
    [| split; [done | eauto]].
  destruct (write_fits _ _ _ _); simpl; [| split; [done | eauto]].
  split.
  - intros p Hne. by apply lookup_insert_ne.
  - intros p r0 Hr0. simpl in *. destruct (decide (master = p)) as [<-|Hne].
    + rewrite lookup_insert_eq. eexists. split; [done |]. simpl. congruence.
    + rewrite lookup_insert_ne by done. eauto.
Qed.

Lemma maybe_create_untouched master ndv info0 infoSet b :
  invariant (untouched master) (maybe_create master ndv info0 infoSet b).
Proof.
  intros [fs tr]. destruct (fs !! master) as [mr|] eqn:Hmr.
  - rewrite maybe_create_present by (by rewrite Hmr). simpl.
    split; [done | eauto].
  - rewrite maybe_create_absent by done. simpl. split.
    + intros p Hne. by apply lookup_insert_ne.
    + intros p r Hr. simpl in *. rewrite lookup_insert_ne by congruence. eauto.
Qed.

Ltac leaves master :=
  first
    [ apply WriteArray_untouched
    | apply maybe_create_untouched
    | apply emit_untouched
    | apply (invariant_get_file (untouched master))
    | apply (invariant_ret (untouched master))
    | apply (invariant_raise (untouched master))
    | apply (invariant_lift (untouched master))
    | apply (invariant_forM_ (untouched master)); intros ?
    | apply (invariant_mapM (untouched master)); intros ?
    | apply (invariant_bind (untouched master)); [| intros ?]
    | match goal with |- invariant _ (match ?x with _ => _ end) =>
        destruct x end
    | match goal with |- invariant _ (if ?x then _ else _) =>
        destruct x end ].

Lemma add_dataset_untouched tol master mInfo mExtent f d :
  invariant (untouched master) (add_dataset tol master mInfo mExtent f d).
Proof.
  unfold add_dataset, fetchMatrix, ReadAsArray, FlushCache.
  destruct d as [[p|r] dInfo]; simpl; repeat leaves master.
Qed.

(** The handle [gdal_Open] returns is the path it was given. *)
Lemma gdal_Open_bind {B} p (k : string → M B) st :
  bind (gdal_Open p) k st = bind (gdal_Open p) (λ _, k p) st.
Proof.
  destruct st as [fs tr]. unfold gdal_Open, bind, emit, get_file; simpl.
  by destruct (fs !! p).
Qed.

Lemma merge_phase_untouched tol master info0 f tiles :
  invariant (untouched master) (merge_phase tol master info0 f tiles).
Proof.
  intros st. unfold merge_phase. rewrite gdal_Open_bind. revert st.
  unfold gdal_Open, rasterInfo, check_master, FlushCache, calculateStats.
  repeat first [ apply add_dataset_untouched | progress leaves master ].
Qed.

Lemma combine_untouched glob tol master a f ndv :
  invariant (untouched master)
            (combineSimilarRasters glob tol master a f ndv).
Proof.
  unfold combineSimilarRasters, dataset_list, rasterInfo, check_dataset,
    py_min, py_max.
  repeat first [ apply merge_phase_untouched | progress leaves master ].
Qed.

(** X1. Whatever the arguments and however the run ends, it leaves every
    path other than [master] holding exactly what it held, and every
    raster that was stored (the master too, when there was one) is still
    stored with the metadata it had. *)
Theorem run_touches_only_master glob tol master a combiningFunc noDataValue
    st :
  let st' := (combineSimilarRasters glob tol master a combiningFunc
                                    noDataValue st).2 in
  (∀ p, p ≠ master → files st' !! p = files st !! p)
  ∧ (∀ p r, files st !! p = Some r →
            ∃ r', files st' !! p = Some r' ∧ info r' = info r).
Proof. apply combine_untouched. Qed.

(** ** A master that does not fit the tiles *)

Lemma check_master_mismatch info0 mInfo st :
  ¬ agrees info0 mInfo →
  ∃ msg, check_master info0 mInfo st = (Raise (GeoKitError msg), st)
         ∧ names_master_mismatch msg info0 mInfo.
Proof.
  intros Hn. unfold check_master, names_master_mismatch, IsSame.
  unfold agrees in Hn.
  destruct (bool_decide_reflect (srs mInfo = srs info0)) as [Hs|Hs]; simpl;
    [| eexists; split; [reflexivity | auto]].
  destruct (Qeq_bool (dx mInfo) (dx info0)) eqn:Hx; simpl;
    [| eexists; split; [reflexivity |];
       right; left; split; [done |]; left; by apply Qeq_bool_neq].
  destruct (Qeq_bool (dy mInfo) (dy info0)) eqn:Hy; simpl;
    [| eexists; split; [reflexivity |];
       right; left; split; [done |]; right; by apply Qeq_bool_neq].
  apply Qeq_bool_iff in Hx, Hy.
  destruct (bool_decide_reflect (dtype mInfo = dtype info0)) as [Ht|Ht]; simpl;
    [tauto | eexists; split; [reflexivity | auto]].
Qed.

(** X2. Tiles that can be described and agree with one another, and a
    stored master that differs from the first tile on SRS, resolution or
    datatype: the run raises a [GeoKitError] whose message names such a
    field of the master, after it opened the master and read its
    metadata and before it read or wrote a pixel; the stored rasters are
    unchanged. *)
Theorem master_mismatch_before_write glob tol master a combiningFunc
    noDataValue st info0 others mr :
  described (files st) (datasets_of glob a) (info0 :: others) →
  Forall (agrees info0) others →
  files st !! master = Some mr →
  ¬ agrees info0 (info mr) →
  ∃ msg st',
    combineSimilarRasters glob tol master a combiningFunc noDataValue st
    = (Raise (GeoKitError msg), st')
    ∧ names_master_mismatch msg info0 (info mr)
    ∧ files st' = files st
    ∧ trace st'
      = trace st ++ glob_events a ++ info_events (datasets_of glob a)
        ++ [EvIsFile master; EvOpen master; EvInfo master].
Proof.
  intros Hdesc Hag Hmr Hn.
  rewrite (combine_valid_run _ _ _ _ _ _ _ _ _ Hdesc Hag).
  erewrite bind_run by (apply maybe_create_present; by rewrite Hmr).
  unfold merge_phase.
  erewrite bind_run by (by eapply gdal_Open_run).
  erewrite bind_run
    by (apply (rasterInfo_run _ (DsPath master)); simpl; by rewrite Hmr).
  match goal with |- context [bind (check_master _ _) _ ?s] =>
    destruct (check_master_mismatch info0 (info mr) s Hn) as (msg & Hc & Hm)
  end.
  exists msg. eexists. split; [by erewrite bind_raise by exact Hc |].
  split; [done |]. split; [done |]. simpl.
  by rewrite <- !app_assoc.
Qed.

(** [ex_M] is an Int16 raster; [ex_F] is a Float32 tile. *)
Lemma master_mismatch_before_write_witness :
  let a := ArgIter [DsHandle ex_F] in
  ∃ msg st',
    combineSimilarRasters ex_glob 0 "m" a None None ex_stored
    = (Raise (GeoKitError msg), st')
    ∧ names_master_mismatch msg (info ex_F) (info ex_M)
    ∧ files st' = files ex_stored
    ∧ trace st'
      = trace ex_stored ++ glob_events a
        ++ info_events (datasets_of ex_glob a)
        ++ [EvIsFile "m"; EvOpen "m"; EvInfo "m"].
Proof.
  apply (master_mismatch_before_write ex_glob 0 "m" (ArgIter [DsHandle ex_F])
           None None ex_stored (info ex_F) [] ex_M).
  - repeat constructor.
  - constructor.
  - reflexivity.
  - intros (_ & _ & _ & Hdt). discriminate Hdt.
Defined.

(** ** A pattern that matches nothing *)

(** X3. A string argument whose pattern matches no path: the run raises
    "No datasets given" having done nothing but expand the pattern; no
    raster is described, created, opened, read or written. *)
Theorem empty_glob_raises glob tol master pattern combiningFunc noDataValue
    st :
  glob pattern = [] →
  combineSimilarRasters glob tol master (ArgStr pattern) combiningFunc
                        noDataValue st
  = (Raise (GeoKitError "No datasets given"),
     mkState (files st) (trace st ++ [EvGlob pattern])).
Proof.
  intros Hg. unfold combineSimilarRasters.
  erewrite bind_run by apply dataset_list_run.
  simpl. by rewrite Hg.
Qed.

Lemma empty_glob_raises_witness :
  combineSimilarRasters ex_glob 0 "m" (ArgStr "*.tif") None None ex_stored
  = (Raise (GeoKitError "No datasets given"),
     mkState (files ex_stored) (trace ex_stored ++ [EvGlob "*.tif"])).
Proof.
  apply (empty_glob_raises ex_glob 0 "m" "*.tif" None None ex_stored).
  reflexivity.
Defined.

(** ** The nodata override and a master that is there *)

Lemma bind_cong (R : State → State → Prop) {A B} (m : M A)
    (k1 k2 : A → M B) st :
  invariant R m →
  (∀ x st1, R st st1 → k1 x st1 = k2 x st1) →
  bind m k1 st = bind m k2 st.
Proof.
  intros Hm Hk. unfold bind. specialize (Hm st).
  destruct (m st) as [[x|e] st1]; [| done]. by apply Hk.
Qed.

(** X4. When the master is stored already, the [noDataValue] override
    plays no part: the run, its result and the state it leaves are the
    same for any two overrides (the override is read only to create a
    master). *)
Theorem override_ignored_for_stored_master glob tol master a combiningFunc
    nd1 nd2 st :
  is_Some (files st !! master) →
  combineSimilarRasters glob tol master a combiningFunc nd1 st
  = combineSimilarRasters glob tol master a combiningFunc nd2 st.
Proof.
  intros [mr Hmr]. unfold combineSimilarRasters.
  apply (bind_cong (untouched master)).
  { unfold dataset_list. repeat leaves master. }
  intros ds s1 H1. destruct (decide _); [done |].
  apply (bind_cong (untouched master)).
  { unfold rasterInfo. repeat leaves master. }
  intros infos s2 H2. destruct infos as [|info0 others]; [done |].
  apply (bind_cong (untouched master)).
  { unfold check_dataset. repeat leaves master. }
  intros [] s3 H3.
  change ((maybe_create master nd1 info0 (info0 :: others)
             (data_bounds info0 others);;
           merge_phase tol master info0 combiningFunc
                       (zip ds (info0 :: others))) s3
          = (maybe_create master nd2 info0 (info0 :: others)
               (data_bounds info0 others);;
             merge_phase tol master info0 combiningFunc
                         (zip ds (info0 :: others))) s3).
  assert (Hs3 : is_Some (files s3 !! master)).
  { assert (H13 : untouched master st s3) by (etrans; [| done]; by etrans).
    destruct (proj2 H13 master mr Hmr) as (r' & Hr' & _). by eexists. }
  destruct s3 as [fs3 tr3]. simpl in Hs3.
  erewrite (bind_run (maybe_create master nd1 _ _ _))
    by (by apply maybe_create_present).
  erewrite (bind_run (maybe_create master nd2 _ _ _))
    by (by apply maybe_create_present).
  reflexivity.
Qed.

Lemma override_ignored_for_stored_master_witness :
  combineSimilarRasters ex_glob 0 "m" (ArgIter [DsHandle ex_S]) None
                        (Some (Num 7)) ex_stored
  = combineSimilarRasters ex_glob 0 "m" (ArgIter [DsHandle ex_S]) None
                          None ex_stored.
Proof.
  apply (override_ignored_for_stored_master ex_glob 0 "m"
           (ArgIter [DsHandle ex_S]) None (Some (Num 7)) None ex_stored).
  by eexists.
Defined.

(** ** One pass of the loop, further *)

Lemma not_under_cases x0 y0 (m : Matrix) r c :
  ¬ under x0 y0 m r c →
  (r < y0)%nat ∨ (c < x0)%nat ∨ mget m (r - y0) (c - x0) = None.
Proof.
  intros Hn. unfold under in Hn.
  destruct (decide (r < y0)%nat); [by left |].
  destruct (decide (c < x0)%nat); [by right; left |].
  right; right. apply eq_None_not_Some. intros Hs. apply Hn.
  repeat split; [lia | lia | done].
Qed.

Lemma same_shape_None (A B : Matrix) r c :
  length <$> A = length <$> B → mget A r c = None → mget B r c = None.
Proof.
  intros Hshape HA. apply eq_None_not_Some. intros HB.
  apply (same_shape_cells _ _ r c Hshape) in HB.
  rewrite HA in HB. by destruct HB.
Qed.

(** X5. With no [combiningFunc], a pass that succeeds changes the master
    under the tile's matrix only: every other cell of the band holds what
    it held, and the band keeps its shape and the master its metadata. *)
Theorem pass_changes_footprint_only tol master mInfo mExtent d dInfo st st' :
  add_dataset tol master mInfo mExtent None (d, dInfo) st = (Ok tt, st') →
  ∃ tile mOld mNew idx,
    dataset_raster (files st) d = Some tile
    ∧ files st !! master = Some mOld
    ∧ files st' !! master = Some mNew
    ∧ findWithin tol mExtent (mkExtent (bounds dInfo) (srs dInfo))
                 (dx mInfo, dy mInfo) (yAtTop mInfo) = Ok idx
    ∧ info mNew = info mOld
    ∧ length <$> band mNew = length <$> band mOld
    ∧ ∀ r c,
        ¬ under (Z.to_nat (xStart idx)) (Z.to_nat (yStart idx))
                (if yAtTop dInfo then band tile else reverse (band tile))
                r c →
        mget (band mNew) r c = mget (band mOld) r c.
Proof.
  intros Hrun.
  apply add_dataset_inv in Hrun
    as (tile & mOld & idx & W & Htile & Hold & Hidx & Hfit & HW & Hwfit
        & Hfiles & Htrace).
  eexists tile, mOld, _, idx.
  split; [done |]. split; [done |].
  split; [rewrite Hfiles; apply lookup_insert_eq |].
  split; [done |]. split; [done |]. simpl.
  split; [apply write_window_shape |].
  intros r c Hn. apply mget_not_written.
  apply not_under_cases in Hn as [?|[?|Hnone]]; [by left | by right; left |].
  right; right.
  unfold writeMatrix_of in HW.
  destruct (noData dInfo) as [nd|].
  - destruct (mask_assign_shape _ _ _ _ HW) as [_ HWd].
    by apply (same_shape_None _ _ _ _ (eq_sym HWd)).
  - by injection HW as <-.
Qed.

Lemma pass_changes_footprint_only_witness :
  let mExtent := mkExtent (bounds (info ex_M)) 4326%Z in
  let st' := (add_dataset 0 "m" (info ex_M) mExtent None
                          (DsHandle ex_B, info ex_B) ex_stored).2 in
  ∃ tile mOld mNew idx,
    dataset_raster (files ex_stored) (DsHandle ex_B) = Some tile
    ∧ files ex_stored !! "m" = Some mOld
    ∧ files st' !! "m" = Some mNew
    ∧ findWithin 0 mExtent
        (mkExtent (bounds (info ex_B)) (srs (info ex_B)))
        (dx (info ex_M), dy (info ex_M)) (yAtTop (info ex_M)) = Ok idx
    ∧ info mNew = info mOld
    ∧ length <$> band mNew = length <$> band mOld
    ∧ ∀ r c,
        ¬ under (Z.to_nat (xStart idx)) (Z.to_nat (yStart idx))
                (if yAtTop (info ex_B) then band tile
                 else reverse (band tile)) r c →
        mget (band mNew) r c = mget (band mOld) r c.
Proof.
  apply (pass_changes_footprint_only 0 "m" (info ex_M)
           (mkExtent (bounds (info ex_M)) 4326%Z) (DsHandle ex_B)
           (info ex_B) ex_stored).
  vm_compute. reflexivity.
Defined.

(** X6. With a [combiningFunc], a pass that succeeds writes what the
    function returns for the window of the master as it stands, the
    master's metadata, the tile's top-down matrix and the tile's
    metadata: that matrix is the one logged as written, the cells of the
    band under it hold its values, and the other cells hold what they
    held. *)
Theorem custom_policy_verbatim tol master mInfo mExtent f d dInfo st st' :
  add_dataset tol master mInfo mExtent (Some f) (d, dInfo) st = (Ok tt, st') →
  ∃ tile mOld mNew idx,
    dataset_raster (files st) d = Some tile
    ∧ files st !! master = Some mOld
    ∧ files st' !! master = Some mNew
    ∧ findWithin tol mExtent (mkExtent (bounds dInfo) (srs dInfo))
                 (dx mInfo, dy mInfo) (yAtTop mInfo) = Ok idx
    ∧ let W := f (read_window (band mOld) (xStart idx) (yStart idx)
                              (xWin idx) (yWin idx))
                 mInfo
                 (if yAtTop dInfo then band tile else reverse (band tile))
                 dInfo in
      let y0 := Z.to_nat (yStart idx) in
      let x0 := Z.to_nat (xStart idx) in
      trace st'
      = trace st ++ fetch_events d
        ++ [EvRead master idx; EvWrite master (xStart idx) (yStart idx) W;
            EvFlush master]
      ∧ (∀ r c v, mget W r c = Some v →
                  mget (band mNew) (y0 + r) (x0 + c) = Some v)
      ∧ (∀ r c, ¬ under x0 y0 W r c →
                mget (band mNew) r c = mget (band mOld) r c).
Proof.
  intros Hrun.
  apply add_dataset_inv in Hrun
    as (tile & mOld & idx & W & Htile & Hold & Hidx & Hfit & HW & Hwfit
        & Hfiles & Htrace).
  simpl in HW. injection HW as <-.
  eexists tile, mOld, _, idx.
  split; [done |]. split; [done |].
  split; [rewrite Hfiles; apply lookup_insert_eq |].
  split; [done |]. simpl. split; [done |]. split.
  - intros r c v Hv. by apply mget_written.
  - intros r c Hn. apply mget_not_written. by apply not_under_cases.
Qed.

(** The custom policy "keep the larger value" on the tile B. *)
Lemma custom_policy_verbatim_witness :
  let f : CombiningFunc :=
    λ mMatrix _ dMatrix _, zip_with (zip_with ex_max) mMatrix dMatrix in
  let mExtent := mkExtent (bounds (info ex_M)) 4326%Z in
  let st' := (add_dataset 0 "m" (info ex_M) mExtent (Some f)
                          (DsHandle ex_B, info ex_B) ex_stored).2 in
  ∃ tile mOld mNew idx,
    dataset_raster (files ex_stored) (DsHandle ex_B) = Some tile
    ∧ files ex_stored !! "m" = Some mOld
    ∧ files st' !! "m" = Some mNew
    ∧ findWithin 0 mExtent
        (mkExtent (bounds (info ex_B)) (srs (info ex_B)))
        (dx (info ex_M), dy (info ex_M)) (yAtTop (info ex_M)) = Ok idx
    ∧ let W := f (read_window (band mOld) (xStart idx) (yStart idx)
                              (xWin idx) (yWin idx))
                 (info ex_M)
                 (if yAtTop (info ex_B) then band tile
                  else reverse (band tile))
                 (info ex_B) in
      let y0 := Z.to_nat (yStart idx) in
      let x0 := Z.to_nat (xStart idx) in
      trace st'
      = trace ex_stored ++ fetch_events (DsHandle ex_B)
        ++ [EvRead "m" idx; EvWrite "m" (xStart idx) (yStart idx) W;
            EvFlush "m"]
      ∧ (∀ r c v, mget W r c = Some v →
                  mget (band mNew) (y0 + r) (x0 + c) = Some v)
      ∧ (∀ r c, ¬ under x0 y0 W r c →
                mget (band mNew) r c = mget (band mOld) r c).
Proof.
  apply (custom_policy_verbatim 0 "m" (info ex_M)
           (mkExtent (bounds (info ex_M)) 4326%Z)
           (λ mMatrix _ dMatrix _, zip_with (zip_with ex_max) mMatrix dMatrix)
           (DsHandle ex_B) (info ex_B) ex_stored).
  vm_compute. reflexivity.
Defined.

(** Putting a window back where it was read changes nothing. *)
Lemma write_window_read b x y w h :
  write_window b (Z.to_nat x) (Z.to_nat y) (read_window b x y w h) = b.
Proof.
  apply matrix_ext; [apply write_window_shape |].
  intros r c. rewrite mget_write_window.
  destruct (mget b r c) as [v|] eqn:Hv; simpl; [| done].
  destruct (Nat.leb_spec (Z.to_nat y) r), (Nat.leb_spec (Z.to_nat x) c);
    simpl; try done.
  rewrite mget_read_window. case_decide; [| done].
  replace (Z.to_nat y + (r - Z.to_nat y))%nat with r by lia.
  replace (Z.to_nat x + (c - Z.to_nat x))%nat with c by lia.
  by rewrite Hv.
Qed.

(** A tile made of nodata only, the nodata value being a number, leaves
    the window as it was read. *)
Lemma mask_assign_all_nodata mMatrix dMatrix nd W :
  nd ≠ NaN →
  mask_assign mMatrix dMatrix nd = Ok W →
  (∀ r c v, mget dMatrix r c = Some v → v = nd) →
  W = mMatrix.
Proof.
  intros Hnum HW Hall.
  destruct (mask_assign_shape _ _ _ _ HW) as [HWm _].
  apply matrix_ext; [done |]. intros r c.
  destruct (mask_assign_cells _ _ _ _ r c HW) as [Hshape ->].
  destruct (mget mMatrix r c) as [m|] eqn:Hm; simpl; [| done].
  destruct (proj1 (same_shape_cells _ _ r c Hshape)) as [v Hv];
    [by rewrite Hm |].
  rewrite Hv. simpl. rewrite (Hall r c v Hv).
  unfold overlay. rewrite (pixel_ne_number nd nd Hnum).
  by rewrite bool_decide_eq_false_2 by (by intros ?).
Qed.

(** X7. A tile that declares a nodata value other than NaN and holds
    nothing else: a pass for it with no [combiningFunc] that succeeds
    leaves every stored raster exactly as it was. *)
Theorem all_nodata_tile_changes_nothing tol master mInfo mExtent d dInfo nd
    tile st st' :
  noData dInfo = Some nd →
  nd ≠ NaN →
  dataset_raster (files st) d = Some tile →
  (∀ r c v, mget (band tile) r c = Some v → v = nd) →
  add_dataset tol master mInfo mExtent None (d, dInfo) st = (Ok tt, st') →
  files st' = files st.
Proof.
  intros Hnd Hnum Htile Hall Hrun.
  apply add_dataset_inv in Hrun
    as (tile' & mOld & idx & W & Htile' & Hold & Hidx & Hfit & HW & Hwfit
        & Hfiles & Htrace).
  rewrite Htile in Htile'. injection Htile' as <-.
  unfold writeMatrix_of in HW. rewrite Hnd in HW.
  apply mask_assign_all_nodata in HW; [| done |].
  - rewrite Hfiles, HW, write_window_read.
    destruct mOld as [i b]. simpl. by apply insert_id.
  - intros r c v Hv. destruct (yAtTop dInfo); [by eapply Hall |].
    apply mget_Some_lt in Hv as (row & Hrow & Hv & _ & _).
    apply list_elem_of_lookup_2 in Hrow. rewrite elem_of_reverse in Hrow.
    apply list_elem_of_lookup_1 in Hrow as [r' Hrow].
    apply (Hall r' c v). unfold mget. by rewrite Hrow.
Qed.

(** A tile of zeros that declares 0 as its nodata value, over M. *)
Lemma all_nodata_tile_changes_nothing_witness :
  let tile := mkRaster (ex_info 1 3 GDT_Int16 (Some (Num 0)))
                       (px [[0; 0]; [0; 0]]%Z) in
  files (add_dataset 0 "m" (info ex_M)
           (mkExtent (bounds (info ex_M)) 4326%Z) None
           (DsHandle tile, info tile) ex_stored).2
  = files ex_stored.
Proof.
  set (tile := mkRaster (ex_info 1 3 GDT_Int16 (Some (Num 0)))
                        (px [[0; 0]; [0; 0]]%Z)).
  apply (all_nodata_tile_changes_nothing 0 "m" (info ex_M)
           (mkExtent (bounds (info ex_M)) 4326%Z) (DsHandle tile) (info tile)
           (Num 0) tile ex_stored).
  - reflexivity.
  - discriminate.
  - reflexivity.
  - intros r c v Hv.
    destruct r as [|[|r]]; destruct c as [|[|c]]; vm_compute in Hv;
      congruence.
  - vm_compute. reflexivity.
Defined.

(** X20. A tile whose nodata value is NaN is copied whole: a pass for
    it with no [combiningFunc] that succeeds writes the tile's matrix as
    it is, and the master holds the tile's value, NaN included, at every
    cell under the tile. *)
Theorem NaN_nodata_copies_tile tol master mInfo mExtent d dInfo st st' :
  noData dInfo = Some NaN →
  add_dataset tol master mInfo mExtent None (d, dInfo) st = (Ok tt, st') →
  ∃ tile mNew idx,
    dataset_raster (files st) d = Some tile
    ∧ files st' !! master = Some mNew
    ∧ findWithin tol mExtent (mkExtent (bounds dInfo) (srs dInfo))
                 (dx mInfo, dy mInfo) (yAtTop mInfo) = Ok idx
    ∧ let dMatrix := if yAtTop dInfo then band tile
                     else reverse (band tile) in
      let y0 := Z.to_nat (yStart idx) in
      let x0 := Z.to_nat (xStart idx) in
      trace st'
      = trace st ++ fetch_events d
        ++ [EvRead master idx;
            EvWrite master (xStart idx) (yStart idx) dMatrix;
            EvFlush master]
      ∧ ∀ r c v, mget dMatrix r c = Some v →
                 mget (band mNew) (y0 + r) (x0 + c) = Some v.
Proof.
  intros Hnd Hrun.
  apply add_dataset_inv in Hrun
    as (tile & mOld & idx & W & Htile & Hold & Hidx & Hfit & HW & Hwfit
        & Hfiles & Htrace).
  unfold writeMatrix_of in HW. rewrite Hnd in HW.
  destruct (mask_assign_cells _ _ _ _ 0 0 HW) as [Hshape _].
  rewrite (mask_assign_NaN _ _ Hshape) in HW. injection HW as <-.
  eexists tile, _, idx. split; [done |].
  split; [rewrite Hfiles; apply lookup_insert_eq |].
  split; [done |]. simpl. split; [done |].
  intros r c v Hv. by apply mget_written.
Qed.

(** The float tile N, whose nodata value is NaN, over the master MF. *)
Lemma NaN_nodata_copies_tile_witness :
  let mExtent := mkExtent (bounds (info ex_MF)) 4326%Z in
  let st' := (add_dataset 0 "m" (info ex_MF) mExtent None
                          (DsHandle ex_N, info ex_N) ex_float).2 in
  ∃ tile mNew idx,
    dataset_raster (files ex_float) (DsHandle ex_N) = Some tile
    ∧ files st' !! "m" = Some mNew
    ∧ findWithin 0 mExtent
        (mkExtent (bounds (info ex_N)) (srs (info ex_N)))
        (dx (info ex_MF), dy (info ex_MF)) (yAtTop (info ex_MF)) = Ok idx
    ∧ let dMatrix := if yAtTop (info ex_N) then band tile
                     else reverse (band tile) in
      let y0 := Z.to_nat (yStart idx) in
      let x0 := Z.to_nat (xStart idx) in
      trace st'
      = trace ex_float ++ fetch_events (DsHandle ex_N)
        ++ [EvRead "m" idx;
            EvWrite "m" (xStart idx) (yStart idx) dMatrix;
            EvFlush "m"]
      ∧ ∀ r c v, mget dMatrix r c = Some v →
                 mget (band mNew) (y0 + r) (x0 + c) = Some v.
Proof.
  apply (NaN_nodata_copies_tile 0 "m" (info ex_MF)
           (mkExtent (bounds (info ex_MF)) 4326%Z) (DsHandle ex_N)
           (info ex_N) ex_float).
  - reflexivity.
  - vm_compute. reflexivity.
Defined.

(** ** The last tile of a run *)





(** ** Tiles that do not overlap *)







(** ** The shape of [flatten]'s reduction *)

Section flatten_shape.
Context {G : Type} (Union : G → G → G).

Lemma flatten_loop_step (l : list G) :
  (1 < length l)%nat →
  flatten_loop Union l = flatten_loop Union (union_round Union l).
Proof.
  intros Hl. rewrite (flatten_loop_equation_1 Union l).
  simpl. by destruct (decide (1 < length l)%nat).
Qed.

Lemma flatten_loop_stop (l : list G) :
  (length l ≤ 1)%nat → flatten_loop Union l = l.
Proof.
  intros Hl. rewrite (flatten_loop_equation_1 Union l).
  simpl. destruct (decide (1 < length l)%nat); [lia | done].
Qed.

Lemma union_round_app (l1 l2 : list G) :
  Nat.Even (length l1) →
  union_round Union (l1 ++ l2)
  = union_round Union l1 ++ union_round Union l2.
Proof.
  induction l1 as [| a | a b r IH] using pairs_ind; simpl; intros He.
  - done.
  - destruct He as [n Hn]. lia.
  - rewrite IH; [done |]. destruct He as [n Hn]. exists (n - 1)%nat. lia.
Qed.

Lemma union_round_length_half (l : list G) :
  length (union_round Union l) = ((length l + 1) / 2)%nat.
Proof.
  induction l as [| a | a b r IH] using pairs_ind; [done | done |].
  cbn [union_round length]. rewrite IH.
  replace (S (S (length r)) + 1)%nat with ((length r + 1) + 1 * 2)%nat by lia.
  rewrite Nat.div_add by done. lia.
Qed.

Lemma flatten_Some_loop (l : list G) g :
  flatten Union l = Some g ↔ l ≠ [] ∧ flatten_loop Union l = [g].
Proof.
  destruct l as [|x l]; [split; [done | by intros [? _]] |].
  unfold flatten.
  pose proof (flatten_loop_length Union (x :: l)) as Hlen.
  pose proof (flatten_loop_nonempty Union (x :: l)) as Hne.
  destruct (flatten_loop Union (x :: l)) as [|y [|z r]]; simpl in *.
  - exfalso. by apply Hne.
  - split; [intros [= ->]; done | intros [_ [= ->]]; done].
  - lia.
Qed.

Lemma flatten_loop_balanced k : ∀ (l1 l2 : list G) a b,
  length l1 = (2 ^ k)%nat → (0 < length l2 ≤ 2 ^ k)%nat →
  flatten_loop Union l1 = [a] → flatten_loop Union l2 = [b] →
  flatten_loop Union (l1 ++ l2) = [Union a b].
Proof.
  induction k as [|k IH]; intros l1 l2 a b H1 H2 Ha Hb.
  - destruct l1 as [|x [|? ?]]; simpl in H1; try lia.
    destruct l2 as [|y [|? ?]]; simpl in H2; try lia.
    rewrite flatten_loop_stop in Ha, Hb by (simpl; lia).
    injection Ha as <-. injection Hb as <-.
    rewrite flatten_loop_step by (simpl; lia). simpl.
    by rewrite flatten_loop_stop by (simpl; lia).
  - assert (Hpow : (2 ^ S k = 2 * 2 ^ k)%nat) by (simpl; lia).
    assert (Hpos : (0 < 2 ^ k)%nat).
    { apply Nat.neq_0_lt_0, Nat.pow_nonzero. lia. }
    rewrite Hpow in H1, H2.
    rewrite flatten_loop_step by (rewrite length_app; lia).
    rewrite union_round_app by (exists (2 ^ k)%nat; lia).
    apply IH.
    + rewrite union_round_length_half, H1.
      replace (2 * 2 ^ k + 1)%nat with (1 + 2 ^ k * 2)%nat by lia.
      rewrite Nat.div_add by done. simpl. lia.
    + rewrite union_round_length_half. split.
      * apply Nat.div_str_pos. lia.
      * assert ((length l2 + 1) / 2 < 2 ^ k + 1)%nat; [| lia].
        apply Nat.Div0.div_lt_upper_bound. lia.
    + by rewrite <- flatten_loop_step by lia.
    + destruct (decide (1 < length l2)%nat) as [Hl|Hl].
      * by rewrite <- flatten_loop_step.
      * destruct l2 as [|y [|? ?]]; simpl in *; (done || lia).
Qed.

(** X10. The reduction tree of [flatten] is balanced, whatever [Union]
    is: when the first 2^k geometries flatten to [a] and the rest (at
    least one and at most 2^k of them) flatten to [b], the whole list
    flattens to [Union a b]. *)
Theorem flatten_balanced k (l1 l2 : list G) a b :
  length l1 = (2 ^ k)%nat → (0 < length l2 ≤ 2 ^ k)%nat →
  flatten Union l1 = Some a → flatten Union l2 = Some b →
  flatten Union (l1 ++ l2) = Some (Union a b).
Proof.
  intros H1 H2 Ha Hb.
  apply flatten_Some_loop in Ha as [_ Ha], Hb as [_ Hb].
  apply flatten_Some_loop. split.
  - destruct l1; simpl in *; [| done].
    assert (0 < 2 ^ k)%nat by (apply Nat.neq_0_lt_0, Nat.pow_nonzero; lia).
    lia.
  - by apply (flatten_loop_balanced k).
Qed.

Lemma union_round_Forall (P : G → Prop) (l : list G) :
  (∀ a b, P a → P b → P (Union a b)) →
  Forall P l → Forall P (union_round Union l).
Proof.
  intros HP. induction l as [| a | a b r IH] using pairs_ind; simpl;
    intros Hl; try done.
  apply Forall_cons in Hl as [Ha Hl]. apply Forall_cons in Hl as [Hb Hl].
  constructor; auto.
Qed.

Lemma flatten_loop_Forall (P : G → Prop) (l : list G) :
  (∀ a b, P a → P b → P (Union a b)) →
  Forall P l → Forall P (flatten_loop Union l).
Proof.
  funelim (flatten_loop Union l); intros HP Hl; [| done].
  eauto using union_round_Forall.
Qed.

(** X11. Every property that the geometries of the list have and that
    [Union] preserves (a common spatial reference, for one) is a property
    of the geometry [flatten] returns; a list of one geometry is returned
    as that geometry. *)
Theorem flatten_preserves (P : G → Prop) (l : list G) g :
  (∀ a b, P a → P b → P (Union a b)) →
  Forall P l →
  flatten Union l = Some g →
  P g ∧ (∀ x, l = [x] → g = x).
Proof.
  intros HP Hl Hg. apply flatten_Some_loop in Hg as [_ Hg]. split.
  - pose proof (flatten_loop_Forall P l HP Hl) as HF.
    rewrite Hg in HF. by inv HF.
  - intros x ->. rewrite flatten_loop_stop in Hg by (simpl; lia).
    by injection Hg as <-.
Qed.

End flatten_shape.

(** Strings under concatenation, which is not commutative: four
    geometries and then three. *)
Lemma flatten_balanced_witness :
  flatten String.append (["a"; "b"; "c"; "d"] ++ ["e"; "f"; "g"])
  = Some (String.append "abcd" "efg").
Proof.
  apply (flatten_balanced String.append 2 ["a"; "b"; "c"; "d"]
           ["e"; "f"; "g"] "abcd" "efg").
  - reflexivity.
  - simpl. lia.
  - reflexivity.
  - reflexivity.
Defined.

(** Positive integers under [Z.max]. *)
Lemma flatten_preserves_witness :
  (0 < 5)%Z ∧ (∀ x, [3; 1; 4; 1; 5]%Z = [x] → 5%Z = x).
Proof.
  apply (flatten_preserves Z.max (λ z, (0 < z)%Z) [3; 1; 4; 1; 5]%Z 5%Z).
  - intros a b Ha Hb. lia.
  - repeat constructor.
  - reflexivity.
Defined.

(* ===================================================================== *)
(** * [core/srs.py]: [loadSRS] *)

Lemma Outcome_bind_inv {A B} (m : Outcome A) (k : A → Outcome B) b :
  m ≫= k = Returns b → ∃ a, m = Returns a ∧ k a = Returns b.
Proof. destruct m as [a|e]; [by exists a | done]. Qed.

Lemma Outcome_bind_Returns {A B} (a : A) (k : A → Outcome B) :
  Returns a ≫= k = k a.
Proof. reflexivity. Qed.

Section srs_properties.
Context {SR : Type}.
Context (ImportFromWkt : string → SR) (ImportFromEPSG : Z → SR).
Context (object_getattr : string → option (PyVal SR)).


Lemma hasattr_true (s : string) :
  hasattr_SRSCOMMON ImportFromEPSG object_getattr s = true
  ↔ is_Some (SRSCOMMON_getattr ImportFromEPSG object_getattr s).
Proof. unfold hasattr_SRSCOMMON. by rewrite bool_decide_eq_true. Qed.

Lemma underscore_inj (s t : string) : "_" +:+ s = "_" +:+ t → s = t.
Proof. intros H. by injection H. Qed.

Lemma prefix_underscore (s : string) :
  String.prefix "___" ("_" +:+ s) = String.prefix "__" s.
Proof. reflexivity. Qed.

Lemma getattr_prefixed (s : string) :
  dunder_attributes object_getattr →
  is_Some (SRSCOMMON_getattr ImportFromEPSG object_getattr s) →
  is_Some (SRSCOMMON_getattr ImportFromEPSG object_getattr ("_" +:+ s)) →
  s = "latlon" ∨ s = "europe_m".
Proof.
  intros Hobj Hs Hp. unfold SRSCOMMON_getattr in Hs, Hp.
  repeat case_decide; subst; auto;
    try match goal with
        | H : "_" +:+ _ = _ |- _ =>
            first [ apply (underscore_inj _ "latlon") in H
                  | apply (underscore_inj _ "europe_m") in H
                  | apply (underscore_inj _ "_getitem__") in H
                  | discriminate H ]; try discriminate H; subst
        end;
    auto;
    try (destruct Hp as [v Hv]; apply Hobj in Hv; by vm_compute in Hv);
    try (destruct Hs as [v Hv]; apply Hobj in Hv; by vm_compute in Hv).
  destruct Hp as [v Hv]. apply Hobj in Hv.
  destruct Hs as [w Hw]. apply Hobj in Hw.
  unfold is_dunder in Hv, Hw.
  apply andb_true_iff in Hv as [Hv _]. apply andb_true_iff in Hv as [_ Hv].
  apply andb_true_iff in Hw as [Hw _]. apply andb_true_iff in Hw as [Hw _].
  apply negb_true_iff in Hv. rewrite prefix_underscore in Hv. congruence.
Qed.

Lemma loadSRS_on_attribute (s : string) :
  dunder_attributes object_getattr →
  hasattr_SRSCOMMON ImportFromEPSG object_getattr s = true →
  loadSRS ImportFromWkt ImportFromEPSG object_getattr (VStr s)
  = if decide (s = "latlon") then Returns (VSRS (ImportFromEPSG 4326))
    else if decide (s = "europe_m") then Returns (VSRS (ImportFromEPSG 3035))
    else Raises (AttributeError ("_" +:+ s)).
Proof.
  intros Hobj Hs. unfold loadSRS, SRSCOMMON_getitem. rewrite Hs. simpl.
  apply hasattr_true in Hs.
  destruct (decide (s = "latlon")) as [->|Hl]; [reflexivity |].
  destruct (decide (s = "europe_m")) as [->|He]; [reflexivity |].
  destruct (SRSCOMMON_getattr ImportFromEPSG object_getattr ("_" +:+ s))
    as [v|] eqn:Hp; [| reflexivity].
  destruct (getattr_prefixed s Hobj Hs) as [?|?]; [by rewrite Hp | done..].
Qed.

(** X12. [loadSRS] on a string that names an attribute of [SRSCOMMON]:
    for ["latlon"] and ["europe_m"] it returns the stored EPSG:4326 and
    EPSG:3035 references; for every other attribute name (a private name
    such as ["_latlon"], a method name such as ["__getitem__"]) it raises
    [AttributeError] for the name with an underscore in front, and does
    not read the string as WKT. The attributes every Python object has
    are taken to have names with two underscores at each end. *)
Theorem loadSRS_attribute_names (s : string) :
  dunder_attributes object_getattr →
  hasattr_SRSCOMMON ImportFromEPSG object_getattr s = true →
  loadSRS ImportFromWkt ImportFromEPSG object_getattr (VStr s)
  = if decide (s = "latlon") then Returns (VSRS (ImportFromEPSG 4326))
    else if decide (s = "europe_m") then Returns (VSRS (ImportFromEPSG 3035))
    else Raises (AttributeError ("_" +:+ s)).
Proof. apply loadSRS_on_attribute. Qed.

(** X13. What [loadSRS] returns is a spatial reference or [None],
    [None] only for [None], and [loadSRS] returns it unchanged when it is
    given it again. The attributes every Python object has are taken to
    have names with two underscores at each end. *)
Theorem loadSRS_idempotent (source v : PyVal SR) :
  dunder_attributes object_getattr →
  loadSRS ImportFromWkt ImportFromEPSG object_getattr source = Returns v →
  loadSRS ImportFromWkt ImportFromEPSG object_getattr v = Returns v
  ∧ (v = VNone ∧ source = VNone ∨ ∃ r, v = VSRS r ∧ source ≠ VNone).
Proof.
  intros Hobj Hv.
  assert (Hsrs : ∀ r, source ≠ VNone → v = VSRS r →
    loadSRS ImportFromWkt ImportFromEPSG object_getattr v = Returns v
    ∧ (v = VNone ∧ source = VNone ∨ ∃ r, v = VSRS r ∧ source ≠ VNone))
    by (intros r ? ->; split; [done | right; by exists r]).
  destruct source as [r| |s|n|].
  - injection Hv as <-. by apply (Hsrs r).
  - injection Hv as <-. split; [done | by left].
  - destruct (hasattr_SRSCOMMON ImportFromEPSG object_getattr s) eqn:Hs.
    + rewrite (loadSRS_on_attribute s Hobj Hs) in Hv.
      repeat case_decide; try discriminate Hv; injection Hv as <-;
        by eapply Hsrs.
    + unfold loadSRS in Hv. rewrite Hs in Hv. injection Hv as <-.
      by eapply Hsrs.
  - injection Hv as <-. by eapply Hsrs.
  - done.
Qed.

End srs_properties.

Lemma loadSRS_attribute_names_witness :
  ex_loadSRS (VStr "_latlon") = Raises (AttributeError "__latlon").
Proof.
  apply (loadSRS_attribute_names ex_ImportFromWkt ex_ImportFromEPSG
           ex_object_getattr "_latlon").
  - intros n v. unfold ex_object_getattr.
    case_decide; [subst; reflexivity | discriminate].
  - reflexivity.
Defined.

Lemma loadSRS_idempotent_witness :
  ex_loadSRS (VSRS 3035%Z) = Returns (VSRS 3035%Z)
  ∧ (VSRS 3035%Z = VNone ∧ VStr "europe_m" = @VNone Z
     ∨ ∃ r, VSRS 3035%Z = VSRS r ∧ VStr "europe_m" ≠ @VNone Z).
Proof.
  apply (loadSRS_idempotent ex_ImportFromWkt ex_ImportFromEPSG
           ex_object_getattr (VStr "europe_m") (VSRS 3035%Z)).
  - intros n v. unfold ex_object_getattr.
    case_decide; [subst; reflexivity | discriminate].
  - reflexivity.
Defined.

(* ===================================================================== *)
(** * [geomutil.transform] and [geomutil.convertMask] *)

Lemma sum_codes_zero (l : list Z) :
  Forall (λ c, c = 0%Z) l → sum_codes l = 0%Z.
Proof. induction 1 as [|c l Hc _ IH]; simpl; [done | lia]. Qed.

Lemma sum_codes_pos (l : list Z) :
  Forall (λ c, 0 ≤ c)%Z l → Exists (λ c, c ≠ 0%Z) l → (0 < sum_codes l)%Z.
Proof.
  intros Hl. assert (Hnn : ∀ l, Forall (λ c, 0 ≤ c)%Z l → (0 ≤ sum_codes l)%Z).
  { induction 1; simpl; lia. }
  induction Hl as [|c l Hc Hl IH]; intros Hex; inv Hex; simpl.
  - specialize (Hnn l Hl). lia.
  - specialize (IH ltac:(assumption)). lia.
Qed.

Lemma flatten_nonempty {G} (Union : G → G → G) (l : list G) :
  l ≠ [] → is_Some (flatten Union l).
Proof.
  intros Hl. pose proof (flatten_loop_nonempty Union l Hl) as Hne.
  destruct l as [|x l]; [done |]. unfold flatten.
  destruct (flatten_loop Union (x :: l)); [done | by eexists].
Qed.

Section geometry_properties.
Context {SR Geom Trx Number : Type}.
Context (srsutil_loadSRS : PyVal SR → Outcome (PyVal SR)).
Context (GetSpatialReference : Geom → option SR)
        (CoordinateTransformation : PyVal SR → PyVal SR → Outcome Trx)
        (Segmentize : Geom → Q → Geom)
        (Transform : Geom → Trx → Geom * Z)
        (Union : Geom → Geom → Geom).
Context (mem_Create : Z → Z → bool)
        (Polygonize : list (list bool)
                      → Number * Number * Number * Number * Number * Number
                      → option SR → PyVal SR → Z * list Geom).
Context (of_int : Z → Number)
        (num_sub : Number → Number → Number)
        (num_div : Number → Number → Outcome Number)
        (num_mul : Number → Number → Number)
        (num_abs : Number → Number)
        (num_round : Number → Outcome Z).

(** X14. When [transform] returns, every geometry has been segmented (if
    asked) and transformed with the one coordinate transformation, and
    the results come back in the order of the input; an input of exactly
    one geometry, bare or in a list, comes back as a bare geometry, any
    other as a list. *)
Theorem transform_keeps_order (geoms : GeomsArg Geom) (toSRS fromSRS : PyVal SR)
    (segment : option Q) (res : Transformed Geom) :
  transform srsutil_loadSRS GetSpatialReference CoordinateTransformation
    Segmentize Transform geoms toSRS fromSRS segment = Returns res →
  ∃ trx,
    transformer srsutil_loadSRS GetSpatialReference CoordinateTransformation
      (geoms_list geoms) toSRS fromSRS = Returns trx
    ∧ match res with
      | TOne g =>
          ∃ g0, geoms_list geoms = [g0]
                ∧ g = (Transform (segmented Segmentize segment g0) trx).1
      | TMany l =>
          length (geoms_list geoms) ≠ 1
          ∧ l = (λ g, (Transform (segmented Segmentize segment g) trx).1)
                <$> geoms_list geoms
      end.
Proof.
  unfold transform. intros H.
  apply Outcome_bind_inv in H as (trx & Htrx & H). exists trx. split; [done |].
  destruct (0 <? _)%Z; [done |]. rewrite <- !list_fmap_compose in H.
  destruct (geoms_list geoms) as [|a [|b l]]; simpl in H; injection H as <-.
  - split; [simpl; lia | reflexivity].
  - by exists a.
  - split; [simpl; lia | reflexivity].
Qed.

(** X15. Once the coordinate transformation is made, and the error codes
    of [Transform] are not negative, [transform] returns if every
    geometry's code is 0 and raises "Errors in geometry transformations"
    if some geometry's code is not 0. *)
Theorem transform_error_codes (geoms : GeomsArg Geom) (toSRS fromSRS : PyVal SR)
    (segment : option Q) (trx : Trx) :
  transformer srsutil_loadSRS GetSpatialReference CoordinateTransformation
    (geoms_list geoms) toSRS fromSRS = Returns trx →
  Forall (λ g, 0 ≤ (Transform (segmented Segmentize segment g) trx).2)%Z
    (geoms_list geoms) →
  (Forall (λ g, (Transform (segmented Segmentize segment g) trx).2 = 0%Z)
     (geoms_list geoms) →
   ∃ res, transform srsutil_loadSRS GetSpatialReference
            CoordinateTransformation Segmentize Transform geoms toSRS fromSRS
            segment = Returns res)
  ∧ (Exists (λ g, (Transform (segmented Segmentize segment g) trx).2 ≠ 0%Z)
       (geoms_list geoms) →
     transform srsutil_loadSRS GetSpatialReference CoordinateTransformation
       Segmentize Transform geoms toSRS fromSRS segment
     = Raises (GeoKitGeomError "Errors in geometry transformations")).
Proof.
  intros Htrx Hnn. unfold transform. rewrite Htrx. simpl.
  rewrite <- !list_fmap_compose. split.
  - intros Hz. rewrite sum_codes_zero.
    + rewrite Z.ltb_irrefl. destruct (_ <$> _) as [|a [|b l]]; by eexists.
    + apply Forall_fmap. eapply Forall_impl; [exact Hz |].
      intros g Hg. exact Hg.
  - intros Hex.
    match goal with
    | |- context [(0 <? ?x)%Z] => destruct (Z.ltb_spec 0 x) as [Hlt|Hle]
    end; [done |].
    exfalso. apply Z.le_ngt in Hle. apply Hle, sum_codes_pos.
    + apply Forall_fmap. eapply Forall_impl; [exact Hnn |].
      intros g Hg. exact Hg.
    + apply Exists_fmap. eapply Exists_impl; [exact Hex |].
      intros g Hg. exact Hg.
Qed.

Lemma convertMask_features (mask : MaskArg) (bounds : BoundsArg SR Number)
    (srs : PyVal SR) (flat : bool) (res : MaskResult Geom) :
  convertMask srsutil_loadSRS Union mem_Create Polygonize of_int num_sub
    num_div num_mul num_abs num_round mask bounds srs flat
  = Returns res →
  ∃ features, ∀ flat',
    convertMask srsutil_loadSRS Union mem_Create Polygonize of_int num_sub
    num_div num_mul num_abs num_round mask bounds srs
      flat'
    = Returns (match features with
               | [] => MNone
               | _ => if flat'
                      then match flatten Union features with
                           | Some g => MGeom g
                           | None => MNone
                           end
                      else MList features
               end).
Proof.
  unfold convertMask. destruct mask as [|dt rows cols data]; [done |].
  destruct (negb (dtype_is_bool dt) && negb (dtype_is_uint8 dt)); [done |].
  cbv zeta. intros H.
  apply Outcome_bind_inv in H as (bs & Hbs & H).
  apply Outcome_bind_inv in H as (pixel & Hpixel & H).
  apply Outcome_bind_inv in H as (srs' & Hsrs & H).
  apply Outcome_bind_inv in H as (size & Hsize & H).
  destruct (negb (mem_Create _ _)) eqn:Hmem; [done |].
  apply Outcome_bind_inv in H as (proj & Hproj & H).
  destruct (negb (_ =? 0)%Z) eqn:Hcode; [done |].
  match type of Hcode with
  | context [Polygonize ?a ?b ?c ?d] => exists (Polygonize a b c d).2
  end.
  intros flat'.
  rewrite Hbs, Outcome_bind_Returns, Hpixel, Outcome_bind_Returns.
  rewrite Hsrs, Outcome_bind_Returns, Hsize, Outcome_bind_Returns.
  rewrite Hmem, Hproj, Outcome_bind_Returns.
  rewrite Hcode.
  destruct (Polygonize _ _ _ _).2; destruct flat'; reflexivity.
Qed.

(** X16. What [convertMask] returns depends on [flat] only when the mask
    gave features: it returns [None] for a mask without features whether
    [flat] is set or not, and never an empty list; otherwise it returns
    a list, which is not empty, exactly when [flat] is not set, and one
    geometry exactly when it is. *)
Theorem convertMask_result_kind (mask : MaskArg) (bounds : BoundsArg SR Number)
    (srs : PyVal SR) (flat : bool) (res : MaskResult Geom) :
  convertMask srsutil_loadSRS Union mem_Create Polygonize of_int num_sub
    num_div num_mul num_abs num_round mask bounds srs flat
  = Returns res →
  match res with
  | MNone =>
      convertMask srsutil_loadSRS Union mem_Create Polygonize of_int num_sub
    num_div num_mul num_abs num_round mask bounds srs
        (negb flat) = Returns MNone
  | MGeom _ => flat = true
  | MList l => flat = false ∧ l ≠ []
  end.
Proof.
  intros H. destruct (convertMask_features _ _ _ _ _ H) as [features Hall].
  rewrite (Hall flat) in H. injection H as <-.
  destruct features as [|x l]; [apply Hall |].
  destruct flat; [| done].
  by destruct (flatten_nonempty Union (x :: l)) as [g ->].
Qed.

(** X17. With [flat] set, [convertMask] returns [flatten] of the list it
    returns without [flat]; a list of one feature is flattened like any
    other. *)
Theorem convertMask_flat_is_flatten (mask : MaskArg) (bounds : BoundsArg SR Number)
    (srs : PyVal SR) (l : list Geom) :
  convertMask srsutil_loadSRS Union mem_Create Polygonize of_int num_sub
    num_div num_mul num_abs num_round mask bounds srs
    false = Returns (MList l) →
  ∃ g, flatten Union l = Some g
       ∧ convertMask srsutil_loadSRS Union mem_Create Polygonize of_int num_sub
    num_div num_mul num_abs num_round mask bounds
           srs true = Returns (MGeom g).
Proof.
  intros H. destruct (convertMask_features _ _ _ _ _ H) as [features Hall].
  rewrite (Hall false) in H. rewrite (Hall true).
  destruct features as [|x r]; [done |]. injection H as <-.
  destruct (flatten_nonempty Union (x :: r)) as [g Hg]; [done |].
  exists g. by rewrite Hg.
Qed.

(** X18. When [bounds] is an [Extent], the [srs] argument has no effect:
    the call is the call with the extent's corners as bounds and the
    extent's reference system as [srs]. *)
Theorem convertMask_extent_srs (mask : MaskArg)
    (xyXY : Number * Number * Number * Number)
    (extent_srs srs : PyVal SR) (flat : bool) :
  convertMask srsutil_loadSRS Union mem_Create Polygonize of_int num_sub
    num_div num_mul num_abs num_round mask
    (BExtent xyXY extent_srs) srs flat
  = convertMask srsutil_loadSRS Union mem_Create Polygonize of_int num_sub
    num_div num_mul num_abs num_round mask
      (BTuple xyXY) extent_srs flat.
Proof. by destruct mask. Qed.

End geometry_properties.

(** Three geometries from EPSG:4326, the reference of the first, to
    ["europe_m"]. *)
Lemma transform_keeps_order_witness :
  ∃ trx,
    transformer ex_loadSRS ex_GetSpatialReference ex_CoordinateTransformation
      [1; 2; 3]%Z (VStr "europe_m") VNone = Returns trx
    ∧ length [1; 2; 3]%Z ≠ 1
    ∧ [-1290; -1289; -1288]%Z
      = (λ g, (ex_Transform (segmented ex_Segmentize None g) trx).1)
        <$> [1; 2; 3]%Z.
Proof.
  apply (transform_keeps_order ex_loadSRS ex_GetSpatialReference
           ex_CoordinateTransformation ex_Segmentize ex_Transform
           (ManyGeoms [1; 2; 3]%Z) (VStr "europe_m") VNone None
           (TMany [-1290; -1289; -1288]%Z)).
  vm_compute. reflexivity.
Defined.

(** A geometry that transforms and one that does not. *)
Lemma transform_error_codes_witness :
  (Forall (λ g, (ex_Transform (segmented ex_Segmentize None g) (-1291)).2
                = 0%Z) [1; -2]%Z →
   ∃ res, transform ex_loadSRS ex_GetSpatialReference
            ex_CoordinateTransformation ex_Segmentize ex_Transform
            (ManyGeoms [1; -2]%Z) (VInt 3035) VNone None = Returns res)
  ∧ (Exists (λ g, (ex_Transform (segmented ex_Segmentize None g) (-1291)).2
                  ≠ 0%Z) [1; -2]%Z →
     transform ex_loadSRS ex_GetSpatialReference ex_CoordinateTransformation
       ex_Segmentize ex_Transform (ManyGeoms [1; -2]%Z) (VInt 3035) VNone
       None
     = Raises (GeoKitGeomError "Errors in geometry transformations")).
Proof.
  apply (transform_error_codes ex_loadSRS ex_GetSpatialReference
           ex_CoordinateTransformation ex_Segmentize ex_Transform
           (ManyGeoms [1; -2]%Z) (VInt 3035) VNone None (-1291)%Z).
  - vm_compute. reflexivity.
  - repeat constructor; vm_compute; discriminate.
Defined.

(** A two by two mask with one cell set, without [flat]. *)
Lemma convertMask_result_kind_witness :
  false = false ∧ [0%Z] ≠ [].
Proof.
  apply (convertMask_result_kind ex_loadSRS Z.max ex_mem_Create ex_Polygonize
           inject_Z Qminus ex_div Qmult Qabs ex_round
           (Ndarray DBool 2 2 [[1; 0]; [0; 0]]%Z) BNone VNone false
           (MList [0%Z])).
  vm_compute. reflexivity.
Defined.

(** A two by two mask with a cell set in each row. *)
Lemma convertMask_flat_is_flatten_witness :
  ∃ g, flatten Z.max [0; 1]%Z = Some g
       ∧ convertMask ex_loadSRS Z.max ex_mem_Create ex_Polygonize
           inject_Z Qminus ex_div Qmult Qabs ex_round
           (Ndarray DUint8 2 2 [[1; 0]; [0; 1]]%Z) (BTuple (0, 0, 10, 10)%Q)
           (VInt 4326) true = Returns (MGeom g).
Proof.
  apply (convertMask_flat_is_flatten ex_loadSRS Z.max ex_mem_Create
           ex_Polygonize inject_Z Qminus ex_div Qmult Qabs ex_round
           (Ndarray DUint8 2 2 [[1; 0]; [0; 1]]%Z)
           (BTuple (0, 0, 10, 10)%Q) (VInt 4326) [0; 1]%Z).
  vm_compute. reflexivity.
Defined.
